(** * ColorChallenge: the colour-difficulty generator of [App]

    A shallow embedding of [generateColors] (the [useCallback] body in the
    [App] component) together with the properties the specification states
    about it.

    Modelling conventions.
    - A JavaScript number is an exact rational ([Q]); [Math.pow] with the
      integer exponent [level - 1] is [Qpower].  Rounding of binary64
      arithmetic and the non-finite values ([NaN], the infinities) are not
      represented.
    - [Math.random] is a stream of draws that the function consumes from the
      front, in program order; a well-behaved source yields draws in [0,1).
    - A colour string [hsl(${h}, ${s}%, ${l}%)] is kept as the triple of the
      three interpolated numbers; the template is injective in them.
    - The three [setState] calls that end [generateColors] are the fields of
      the record [Round].
    - [difficulty] is the run-time value of the string enum [Difficulty]. *)

From Stdlib Require Import QArith Qround Qpower Qminmax Qabs.
From Stdlib Require Import ZArith List String Bool Lia Lqa.
Import ListNotations.

Open Scope Q_scope.

(** ** The fragment of JavaScript the generator uses *)

Module JS.

(** [x < y] and [x > y] on numbers. *)
Definition lt (x y : Q) : bool := negb (Qle_bool y x).
Definition gt (x y : Q) : bool := lt y x.

Definition Math_floor (x : Q) : Q := inject_Z (Qfloor x).
Definition Math_max (x y : Q) : Q := Qmax x y.
Definition Math_min (x y : Q) : Q := Qmin x y.
Definition Math_pow (b : Q) (e : Z) : Q := b ^ e.

(** Rounding towards zero, as in the definition of [%]. *)
Definition trunc (x : Q) : Z := Z.quot (Qnum x) (Zpos (Qden x)).

(** [x % y]: the remainder takes the sign of the dividend. *)
Definition rem (x y : Q) : Q := x - y * inject_Z (trunc (x / y)).

(** [Number(x.toFixed(f))].  [toFixed] prints the integer [n] for which
    [n / 10^f] is closest to [|x|], the larger one on a tie, with the sign
    of [x] in front; from [10^21] on it prints [x] itself. *)
Definition Number_toFixed (x : Q) (f : Z) : Q :=
  let a := Qabs x in
  if Qle_bool (10 ^ 21) a then x
  else
    let n := Qfloor (a * 10 ^ f + 0.5) in
    let v := inject_Z n / 10 ^ f in
    if lt x 0 then - v else v.

(** [Array.from({ length: n }, (_, i) => f i)]. *)
Definition Array_from {A : Type} (n : Z) (f : Z -> A) : list A :=
  map (fun i => f (Z.of_nat i)) (seq 0 (Z.to_nat n)).

End JS.

(** ** Randomness: [Math.random] as a state monad over the stream of draws *)

Definition RandomSource : Type := nat -> Q.

Definition Rand (A : Type) : Type := RandomSource -> A * RandomSource.

Definition ret {A : Type} (a : A) : Rand A := fun r => (a, r).

Definition bind {A B : Type} (c : Rand A) (k : A -> Rand B) : Rand B :=
  fun r => let (a, r') := c r in k a r'.

Definition Math_random : Rand Q :=
  fun r => (r 0%nat, fun n => r (S n)).

Declare Scope rand_scope.
Delimit Scope rand_scope with rand.
Notation "x <- c ;; k" := (bind c (fun x => k))
  (at level 61, c at next level, right associativity) : rand_scope.
Notation "' pat <- c ;; k" := (bind c (fun x => match x with pat => k end))
  (at level 61, pat pattern, c at next level, right associativity) : rand_scope.

(** Every draw of the source lies in [0,1). *)
Definition unit_draws (rng : RandomSource) : Prop :=
  forall n : nat, 0 <= rng n /\ rng n < 1.

(** The two sources agree on their first [k] draws. *)
Definition same_draws (k : nat) (rng rng' : RandomSource) : Prop :=
  forall n : nat, (n < k)%nat -> rng n = rng' n.

(** ** Types *)

(** [enum Difficulty] and the strings that are its run-time values. *)
Inductive Difficulty : Type := EASY | NORMAL | HARD.

Definition Difficulty_value (d : Difficulty) : string :=
  match d with
  | EASY => "EASY"
  | NORMAL => "NORMAL"
  | HARD => "HARD"
  end.

(** The numbers interpolated into [hsl(${h}, ${s}%, ${l}%)]. *)
Record HSL : Type := hsl { hue : Q; saturation : Q; lightness : Q }.

(** Two colours denote the same numbers channel by channel. *)
Definition HSL_eq (c c' : HSL) : Prop :=
  hue c == hue c' /\ saturation c == saturation c' /\
  lightness c == lightness c'.

(** An element of the [grid] state. *)
Record Cell : Type := mkCell { color : HSL; isTarget : bool }.

(** The [diffInfo] state. *)
Record DiffInfo : Type := mkDiffInfo { base : HSL; target : HSL; diff : Q }.

(** What one call of [generateColors] stores: [setGrid], [setTargetIndex]
    and [setDiffInfo]. *)
Record Round : Type := mkRound {
  grid : list Cell;
  targetIndex : Z;
  diffInfo : DiffInfo
}.

(** The branch of the [if] / [else if] / [else] chain on [shiftType]. *)
Inductive Channel : Type := Hue | Saturation | Lightness.

(** ** Game constants *)

Definition INITIAL_TIME : Z := 30.
Definition GRID_SIZE : Z := 5.

(** ** Color logic *)

Import JS.
Local Open Scope rand_scope.
Local Open Scope string_scope.

(** [baseDiff] and [decay] after the two [if] statements on [difficulty]. *)
Definition tierConstants (difficulty : string) : Q * Q :=
  let baseDiff := 15 in
  let decay := 0.95 in
  let '(baseDiff, decay) :=
    if String.eqb difficulty (Difficulty_value EASY)
    then (25, 0.97) else (baseDiff, decay) in
  let '(baseDiff, decay) :=
    if String.eqb difficulty (Difficulty_value HARD)
    then (12, 0.92) else (baseDiff, decay) in
  (baseDiff, decay).

(** [const currentDiff = Math.max(1, baseDiff * Math.pow(decay, level - 1))]. *)
Definition currentDiff (level : Z) (difficulty : string) : Q :=
  let '(baseDiff, decay) := tierConstants difficulty in
  Math_max 1 (baseDiff * Math_pow decay (level - 1)).

(** Which component the draw [shiftType] selects. *)
Definition shiftChannel (shiftType : Q) : Channel :=
  if lt shiftType 0.33 then Hue
  else if lt shiftType 0.66 then Saturation
  else Lightness.

(** [(h + currentDiff) % 360]. *)
Definition shiftHue (h d : Q) : Q := rem (h + d) 360.

(** [Math.min(100, Math.max(0, v + (sign > 0.5 ? currentDiff : -currentDiff)))]
    where [sign] is the value of the inner [Math.random()]. *)
Definition shiftClamped (v sign d : Q) : Q :=
  Math_min 100 (Math_max 0 (v + (if gt sign 0.5 then d else - d))).

Definition generateColors (level : Z) (difficulty : string) : Rand Round :=
  r_h <- Math_random ;;
  let h := Math_floor (r_h * 360) in
  r_s <- Math_random ;;
  let s := Math_floor (r_s * 40) + 40 in
  r_l <- Math_random ;;
  let l := Math_floor (r_l * 40) + 30 in
  let currentDiff := currentDiff level difficulty in
  shiftType <- Math_random ;;
  '(targetH, targetS, targetL) <-
    match shiftChannel shiftType with
    | Hue => ret (shiftHue h currentDiff, s, l)
    | Saturation =>
        sign <- Math_random ;; ret (h, shiftClamped s sign currentDiff, l)
    | Lightness =>
        sign <- Math_random ;; ret (h, s, shiftClamped l sign currentDiff)
    end ;;
  let baseColor := hsl h s l in
  let targetColor := hsl targetH targetS targetL in
  r_i <- Math_random ;;
  let newTargetIndex := Qfloor (r_i * inject_Z (GRID_SIZE * GRID_SIZE)) in
  let newGrid :=
    Array_from (GRID_SIZE * GRID_SIZE)
      (fun i => {| color := if Z.eqb i newTargetIndex
                            then targetColor else baseColor;
                   isTarget := Z.eqb i newTargetIndex |}) in
  ret {| grid := newGrid;
         targetIndex := newTargetIndex;
         diffInfo := {| base := baseColor;
                        target := targetColor;
                        diff := Number_toFixed currentDiff 2 |} |}.

(** The round a call stores, and the draws it leaves in the source. *)
Definition round_of (level : Z) (difficulty : string) (rng : RandomSource)
  : Round := fst (generateColors level difficulty rng).

(** How a call of a JavaScript function ends. *)
Inductive Completion (A : Type) : Type :=
| Normal (a : A)
| Throw (error : string).
Arguments Normal {A} a.
Arguments Throw {A} error.

(** A call of [generateColors]: its body has no [throw] and calls nothing
    that throws, so it always completes normally. *)
Definition call_generateColors (level : Z) (difficulty : string)
  (rng : RandomSource) : Completion Round :=
  Normal (round_of level difficulty rng).

(** Sources used to run the generator on concrete draws. *)
Definition rng_const (q : Q) : RandomSource := fun _ => q.
Definition rng_list (l : list Q) : RandomSource := fun n => nth n l 0.

(** ** The specification's vocabulary *)

(** The tier table of the specification. *)
Definition baseDelta (tier : Difficulty) : Q :=
  match tier with EASY => 25 | NORMAL => 15 | HARD => 12 end.

Definition decay (tier : Difficulty) : Q :=
  match tier with EASY => 0.97 | NORMAL => 0.95 | HARD => 0.92 end.

(** [appliedDelta = max(1, baseDelta(tier) * decay(tier)^(level-1))]. *)
Definition appliedDelta_spec (level : Z) (tier : Difficulty) : Q :=
  Qmax 1 (baseDelta tier * decay tier ^ (level - 1)).

(** [clamp(x, lo, hi)]. *)
Definition clamp_spec (x lo hi : Q) : Q :=
  if Qle_bool x lo then lo else if Qle_bool hi x then hi else x.

(** [x mod m], the representative in [0, m). *)
Definition mod_spec (x m : Q) : Q := x - m * inject_Z (Qfloor (x / m)).

(** Rounding to two decimals, halves upwards. *)
Definition round2_spec (x : Q) : Q :=
  inject_Z (Qfloor (100 * x + 0.5)) / 100.

(** Hue in [0,360), saturation and lightness in [0,100]. *)
Definition HSL_in_range (c : HSL) : Prop :=
  (0 <= hue c /\ hue c < 360) /\
  (0 <= saturation c /\ saturation c <= 100) /\
  (0 <= lightness c /\ lightness c <= 100).

(** The channel choice splits [0,1) into three intervals of width 1/3. *)
Definition equal_thirds (choose : Q -> Channel) : Prop :=
  forall c : Channel, exists a b : Q,
    b - a == 1 / 3 /\
    forall x : Q, 0 <= x -> x < 1 -> (choose x = c <-> a <= x /\ x < b).

(** ** The values bound in the body, as functions of the draws *)

(** The values the body of [generateColors] binds, as functions of the
    draws: [h], [s], [l] come from draws 0 to 2, [shiftType] is draw 3, the
    sign draw of the saturation and lightness branches is draw 4, and the
    index draw is the one after. *)
Definition h_of (rng : RandomSource) : Q := Math_floor (rng 0%nat * 360).
Definition s_of (rng : RandomSource) : Q := Math_floor (rng 1%nat * 40) + 40.
Definition l_of (rng : RandomSource) : Q := Math_floor (rng 2%nat * 40) + 30.
Definition channel_of (rng : RandomSource) : Channel := shiftChannel (rng 3%nat).
Definition sign_of (rng : RandomSource) : Q := rng 4%nat.
Definition index_draw (rng : RandomSource) : Q :=
  match channel_of rng with
  | Hue => rng 4%nat
  | Saturation | Lightness => rng 5%nat
  end.

Definition baseColor_of (rng : RandomSource) : HSL :=
  hsl (h_of rng) (s_of rng) (l_of rng).

Definition targetColor_of (level : Z) (difficulty : string)
  (rng : RandomSource) : HSL :=
  let d := currentDiff level difficulty in
  match channel_of rng with
  | Hue => hsl (shiftHue (h_of rng) d) (s_of rng) (l_of rng)
  | Saturation =>
      hsl (h_of rng) (shiftClamped (s_of rng) (sign_of rng) d) (l_of rng)
  | Lightness =>
      hsl (h_of rng) (s_of rng) (shiftClamped (l_of rng) (sign_of rng) d)
  end.

Definition targetIndex_of (rng : RandomSource) : Z :=
  Qfloor (index_draw rng * 25).

(** All the draws of a finite list lie in [0,1). *)
Definition unit_drawsb (l : list Q) : bool :=
  forallb (fun q => Qle_bool 0 q && lt q 1) l.

(** ** The component state and its handlers *)

(** The values [generateColors] passes to [setGrid], [setTargetIndex] and
    [setDiffInfo]. *)
Definition newGrid (R : Round) : list Cell := grid R.
Definition newTargetIndex (R : Round) : Z := targetIndex R.
Definition newDiffInfo (R : Round) : DiffInfo := diffInfo R.

(** The source after its first [k] draws. *)
Definition drop (k : nat) (rng : RandomSource) : RandomSource :=
  fun n => rng (k + n)%nat.

(** The number of [Math.random()] calls of one [generateColors]: the hue
    branch has no sign draw. *)
Definition draws_used (rng : RandomSource) : nat :=
  match channel_of rng with
  | Hue => 5%nat
  | Saturation | Lightness => 6%nat
  end.

(** The first level at which [baseDiff * decay^(level-1)] is at most 1. *)
Definition floor_level (tier : Difficulty) : Z :=
  match tier with EASY => 107 | NORMAL => 54 | HARD => 31 end.

Module App.

Inductive GameStatus : Type := START | PLAYING | GAMEOVER.

Inductive Language : Type := ZH | EN.

(** The [useState] cells of [App].  The numbers [score], [level],
    [timeLeft] and [wrongClicks] only ever hold integers. *)
Record State : Type := mkState {
  status : GameStatus;
  language : Language;
  difficulty : Difficulty;
  score : Z;
  level : Z;
  timeLeft : Z;
  grid : list Cell;
  targetIndex : Z;
  diffInfo : option DiffInfo;
  wrongClicks : Z
}.

(** The initial values given to [useState]. *)
Definition initial : State :=
  {| status := START; language := ZH; difficulty := NORMAL;
     score := 0; level := 1; timeLeft := INITIAL_TIME;
     grid := []; targetIndex := -1; diffInfo := None; wrongClicks := 0 |}.

(** A handler reads the state of the render that created it, the argument
    [s]; its setter calls give the state of the next render.  The
    [generateColors] a handler calls is the callback of the same render, so
    it reads [level s] and [difficulty s], whatever [setLevel] was called
    with in the same handler. *)
Definition startGame (s : State) : Rand State :=
  R <- generateColors (level s) (Difficulty_value (difficulty s)) ;;
  ret {| status := PLAYING; language := language s;
         difficulty := difficulty s;
         score := 0; level := 1; timeLeft := INITIAL_TIME;
         grid := newGrid R; targetIndex := newTargetIndex R;
         diffInfo := Some (newDiffInfo R); wrongClicks := 0 |}.

Definition handleBlockClick (index : Z) (s : State) : Rand State :=
  match status s with
  | PLAYING =>
      if Z.eqb index (targetIndex s) then
        R <- generateColors (level s) (Difficulty_value (difficulty s)) ;;
        ret {| status := status s; language := language s;
               difficulty := difficulty s;
               score := score s + 1; level := level s + 1;
               timeLeft := Z.min INITIAL_TIME (timeLeft s + 2);
               grid := newGrid R; targetIndex := newTargetIndex R;
               diffInfo := Some (newDiffInfo R);
               wrongClicks := wrongClicks s |}
      else
        ret {| status := status s; language := language s;
               difficulty := difficulty s;
               score := score s; level := level s;
               timeLeft := Z.max 0 (timeLeft s - 3);
               grid := grid s; targetIndex := targetIndex s;
               diffInfo := diffInfo s;
               wrongClicks := wrongClicks s + 1 |}
  | START | GAMEOVER => ret s
  end.

(** One firing of the interval of the timer effect.  The interval exists
    only while [status] is [PLAYING]; its callback is the updater passed to
    [setTimeLeft], which also calls [setStatus('GAMEOVER')]. *)
Definition tick (s : State) : State :=
  match status s with
  | PLAYING =>
      if (timeLeft s <=? 1)%Z then
        {| status := GAMEOVER; language := language s;
           difficulty := difficulty s;
           score := score s; level := level s; timeLeft := 0;
           grid := grid s; targetIndex := targetIndex s;
           diffInfo := diffInfo s; wrongClicks := wrongClicks s |}
      else
        {| status := status s; language := language s;
           difficulty := difficulty s;
           score := score s; level := level s; timeLeft := timeLeft s - 1;
           grid := grid s; targetIndex := targetIndex s;
           diffInfo := diffInfo s; wrongClicks := wrongClicks s |}
  | START | GAMEOVER => s
  end.

(** The [onClick] handlers written inline in the markup. *)
Definition setStatus (v : GameStatus) (s : State) : State :=
  {| status := v; language := language s; difficulty := difficulty s;
     score := score s; level := level s; timeLeft := timeLeft s;
     grid := grid s; targetIndex := targetIndex s;
     diffInfo := diffInfo s; wrongClicks := wrongClicks s |}.

Definition setLanguage (v : Language) (s : State) : State :=
  {| status := status s; language := v; difficulty := difficulty s;
     score := score s; level := level s; timeLeft := timeLeft s;
     grid := grid s; targetIndex := targetIndex s;
     diffInfo := diffInfo s; wrongClicks := wrongClicks s |}.

Definition setDifficulty (v : Difficulty) (s : State) : State :=
  {| status := status s; language := language s; difficulty := v;
     score := score s; level := level s; timeLeft := timeLeft s;
     grid := grid s; targetIndex := targetIndex s;
     diffInfo := diffInfo s; wrongClicks := wrongClicks s |}.

(** What can happen to the component between two renders. *)
Inductive Event : Type :=
| StartGame
| BlockClick (index : Z)
| Tick
| Restart
| SetLanguage (v : Language)
| SetDifficulty (v : Difficulty).

Definition step (e : Event) (s : State) : Rand State :=
  match e with
  | StartGame => startGame s
  | BlockClick index => handleBlockClick index s
  | Tick => ret (tick s)
  | Restart => ret (setStatus START s)
  | SetLanguage v => ret (setLanguage v s)
  | SetDifficulty v => ret (setDifficulty v s)
  end.

Fixpoint run (es : list Event) (s : State) : Rand State :=
  match es with
  | [] => ret s
  | e :: es' => s' <- step e s ;; run es' s'
  end.

(** [k] firings of the interval with nothing in between. *)
Fixpoint ticks (k : nat) (s : State) : State :=
  match k with
  | O => s
  | S k' => ticks k' (tick s)
  end.

(** [k] clicks in a row, each on the block that is the target at that
    moment. *)
Fixpoint play_correct (k : nat) (s : State) : Rand State :=
  match k with
  | O => ret s
  | S k' => s' <- handleBlockClick (targetIndex s) s ;; play_correct k' s'
  end.

(** [Math.round]: to the nearest integer, halves upwards. *)
Definition Math_round (x : Q) : Q := inject_Z (Qfloor (x + 0.5)).

(** The accuracy shown on the game-over screen:
    [score + wrongClicks > 0
       ? Math.round((score / (score + wrongClicks)) * 100) : 0]. *)
Definition accuracy (s : State) : Q :=
  if (0 <? score s + wrongClicks s)%Z
  then Math_round
         (inject_Z (score s) / inject_Z (score s + wrongClicks s) * 100)
  else 0.

(** The state holds the round that [generateColors] stores for level [lvl]
    and tier [d] on the source [rng]. *)
Definition shows_round (s : State) (lvl : Z) (d : Difficulty)
  (rng : RandomSource) : Prop :=
  grid s = newGrid (round_of lvl (Difficulty_value d) rng) /\
  targetIndex s = newTargetIndex (round_of lvl (Difficulty_value d) rng) /\
  diffInfo s = Some (newDiffInfo (round_of lvl (Difficulty_value d) rng)).

(** The state holds a round generated for some level from 1 on, from
    draws in [0,1). *)
Definition has_round (s : State) : Prop :=
  exists (lvl : Z) (d : Difficulty) (rng : RandomSource),
    (1 <= lvl)%Z /\ unit_draws rng /\ shows_round s lvl d rng.

(** What every handler keeps true of the counters. *)
Definition counters_ok (s : State) : Prop :=
  level s = (score s + 1)%Z /\
  (0 <= score s)%Z /\
  (0 <= wrongClicks s)%Z /\
  (0 <= timeLeft s <= INITIAL_TIME)%Z /\
  (status s = GAMEOVER -> timeLeft s = 0%Z).

End App.

(** * Proofs *)

(** ** Comparisons, floor, remainder and rounding *)

Section Numbers.

Lemma lt_true_iff (x y : Q) : lt x y = true <-> x < y.
Proof.
  unfold lt. rewrite negb_true_iff.
  split; intro H.
  - apply Qnot_le_lt. intro Hle.
    apply Qle_bool_iff in Hle. congruence.
  - destruct (Qle_bool y x) eqn:E; [|reflexivity].
    apply Qle_bool_iff in E. lra.
Qed.

Lemma lt_false_iff (x y : Q) : lt x y = false <-> y <= x.
Proof.
  unfold lt. rewrite negb_false_iff. apply Qle_bool_iff.
Qed.

Lemma Qle_bool_false_iff (x y : Q) : Qle_bool x y = false <-> y < x.
Proof.
  rewrite <- (lt_true_iff y x). unfold lt.
  destruct (Qle_bool x y); simpl; intuition congruence.
Qed.

(** [Math.floor(r * n)] of a draw [r] in [0,1) is one of [0 .. n-1]. *)
Lemma floor_draw_bounds (r : Q) (n : Z) :
  0 <= r -> r < 1 -> (0 < n)%Z ->
  (0 <= Qfloor (r * inject_Z n) < n)%Z.
Proof.
  intros H0 H1 Hn.
  assert (Hq : 0 < inject_Z n) by (rewrite Zlt_Qlt in Hn; exact Hn).
  split.
  - change 0%Z with (Qfloor 0). apply Qfloor_resp_le.
    apply Qmult_le_0_compat; lra.
  - rewrite Zlt_Qlt.
    apply Qle_lt_trans with (r * inject_Z n); [apply Qfloor_le|].
    setoid_replace (inject_Z n) with (1 * inject_Z n) at 2 by ring.
    apply Qmult_lt_compat_r; assumption.
Qed.

Lemma Math_floor_draw (r : Q) (n : Z) :
  0 <= r -> r < 1 -> (0 < n)%Z ->
  0 <= Math_floor (r * inject_Z n) /\
  Math_floor (r * inject_Z n) <= inject_Z n - 1.
Proof.
  intros H0 H1 Hn.
  destruct (floor_draw_bounds r n H0 H1 Hn) as [Hlo Hhi].
  unfold Math_floor. split.
  - change 0 with (inject_Z 0). rewrite <- Zle_Qle. assumption.
  - change 1 with (inject_Z 1). unfold Qminus.
    rewrite <- inject_Z_opp, <- inject_Z_plus, <- Zle_Qle. lia.
Qed.

Lemma trunc_nonneg (q : Q) : 0 <= q -> trunc q = Qfloor q.
Proof.
  destruct q as [n d]. unfold trunc, Qfloor, Qle. simpl. intro H.
  apply Z.quot_div_nonneg; lia.
Qed.

(** On a non-negative dividend [%] is the mathematical [mod]. *)
Lemma rem_nonneg (x y : Q) : 0 <= x -> 0 < y -> rem x y = mod_spec x y.
Proof.
  intros Hx Hy. unfold rem, mod_spec.
  rewrite trunc_nonneg; [reflexivity|].
  apply Qle_shift_div_l; lra.
Qed.

Lemma mod_spec_bounds (x y : Q) :
  0 < y -> 0 <= mod_spec x y /\ mod_spec x y < y.
Proof.
  intro Hy. unfold mod_spec.
  pose proof (Qfloor_le (x / y)) as Hlo.
  pose proof (Qlt_floor (x / y)) as Hhi.
  rewrite inject_Z_plus in Hhi.
  generalize dependent (inject_Z (Qfloor (x / y))).
  intros F Hlo Hhi.
  assert (Hx : x == y * (x / y)) by (field; lra).
  assert (E : x - y * F == y * (x / y - F)) by (rewrite Hx at 1; ring).
  rewrite E. split.
  - apply Qmult_le_0_compat; lra.
  - change (inject_Z 1) with 1 in Hhi.
    apply Qlt_le_trans with (y * 1).
    + apply Qmult_lt_l; [assumption | lra].
    + rewrite Qmult_1_r. apply Qle_refl.
Qed.

(** The nested [Math.min] / [Math.max] is a clamp to [0,100]. *)
Lemma min_max_clamp (x : Q) :
  Math_min 100 (Math_max 0 x) == clamp_spec x 0 100.
Proof.
  unfold Math_min, Math_max, clamp_spec.
  destruct (Qle_bool x 0) eqn:E0.
  - apply Qle_bool_iff in E0.
    rewrite (Q.max_l 0 x E0). apply Q.min_r. lra.
  - apply Qle_bool_false_iff in E0.
    rewrite (Q.max_r 0 x) by lra.
    destruct (Qle_bool 100 x) eqn:E1.
    + apply Qle_bool_iff in E1. apply Q.min_l. assumption.
    + apply Qle_bool_false_iff in E1. apply Q.min_r. lra.
Qed.

Lemma clamp_spec_bounds (x : Q) :
  0 <= clamp_spec x 0 100 /\ clamp_spec x 0 100 <= 100.
Proof.
  unfold clamp_spec.
  destruct (Qle_bool x 0) eqn:E0; [lra|].
  apply Qle_bool_false_iff in E0.
  destruct (Qle_bool 100 x) eqn:E1; [lra|].
  apply Qle_bool_false_iff in E1. lra.
Qed.

(** [Number(x.toFixed(2))] on the range of magnitudes of valid levels. *)
Lemma Number_toFixed_2 (x : Q) :
  0 <= x -> x <= 25 -> Number_toFixed x 2 == round2_spec x.
Proof.
  intros H0 H25. unfold Number_toFixed, round2_spec.
  assert (Ha : Qabs x == x) by (apply Qabs_pos; assumption).
  assert (Hbig : Qle_bool (10 ^ 21) (Qabs x) = false).
  { apply Qle_bool_false_iff. rewrite Ha.
    apply Qle_lt_trans with 25; [assumption | reflexivity]. }
  rewrite Hbig.
  assert (Hneg : lt x 0 = false) by (apply lt_false_iff; assumption).
  rewrite Hneg.
  assert (Hf : Qfloor (Qabs x * 10 ^ 2 + 0.5) = Qfloor (100 * x + 0.5)).
  { apply Qfloor_comp. rewrite Ha.
    change (10 ^ 2) with (10 * 10). ring. }
  rewrite Hf. reflexivity.
Qed.

Lemma round2_spec_close (x : Q) : Qabs (round2_spec x - x) <= 0.005.
Proof.
  unfold round2_spec.
  pose proof (Qfloor_le (100 * x + 0.5)) as Hlo.
  pose proof (Qlt_floor (100 * x + 0.5)) as Hhi.
  rewrite inject_Z_plus in Hhi. change (inject_Z 1) with 1 in Hhi.
  generalize dependent (inject_Z (Qfloor (100 * x + 0.5))).
  intros F Hlo Hhi.
  apply Qabs_Qle_condition.
  assert (E : F / 100 == F * 0.01) by (field).
  rewrite E. split; lra.
Qed.

End Numbers.

(** ** The decayed magnitude [currentDiff] *)

Section Delta.

Lemma Qpower_le_1 (q : Q) (k : Z) :
  0 < q -> q <= 1 -> (0 <= k)%Z -> q ^ k <= 1.
Proof.
  intros Hq Hq1 Hk.
  assert (Hinv : 1 <= / q).
  { apply Qle_shift_inv_l; [assumption | lra]. }
  pose proof (Qpower_1_le (/ q) k Hinv Hk) as H.
  rewrite Qinv_power in H.
  pose proof (Qpower_0_lt q k Hq) as Hpos.
  generalize dependent (q ^ k). intros p H Hpos.
  assert (E : p * / p == 1) by (apply Qmult_inv_r; lra).
  assert (L : p * 1 <= p * / p) by (apply Qmult_le_l; assumption).
  lra.
Qed.

Lemma Qpower_antitone (q : Q) (n m : Z) :
  0 < q -> q <= 1 -> (n <= m)%Z -> q ^ m <= q ^ n.
Proof.
  intros Hq Hq1 Hnm.
  replace m with (n + (m - n))%Z by ring.
  rewrite Qpower_plus by lra.
  pose proof (Qpower_0_lt q n Hq) as Hpos.
  assert (Hk : q ^ (m - n) <= 1) by (apply Qpower_le_1; [| |lia]; assumption).
  apply Qle_trans with (q ^ n * 1).
  - apply Qmult_le_l; assumption.
  - rewrite Qmult_1_r. apply Qle_refl.
Qed.

Lemma decay_range (tier : Difficulty) : 0 < decay tier /\ decay tier < 1.
Proof. destruct tier; split; reflexivity. Qed.

Lemma baseDelta_range (tier : Difficulty) :
  1 <= baseDelta tier /\ baseDelta tier <= 25.
Proof. destruct tier; split; simpl; lra. Qed.

(** On the three values of the enum the two [if] statements select the
    row of the tier table. *)
Lemma tierConstants_tier (tier : Difficulty) :
  tierConstants (Difficulty_value tier) = (baseDelta tier, decay tier).
Proof. destruct tier; reflexivity. Qed.

Lemma currentDiff_tier (level : Z) (tier : Difficulty) :
  currentDiff level (Difficulty_value tier) = appliedDelta_spec level tier.
Proof.
  unfold currentDiff. rewrite tierConstants_tier. reflexivity.
Qed.

(** Any other string leaves the initial [15] and [0.95] in place. *)
Lemma tierConstants_other (difficulty : string) :
  difficulty <> "EASY" -> difficulty <> "HARD" ->
  tierConstants difficulty = (15, 0.95).
Proof.
  intros HE HH. unfold tierConstants. simpl Difficulty_value.
  apply String.eqb_neq in HE. apply String.eqb_neq in HH.
  rewrite HE, HH. reflexivity.
Qed.

(** The floor of [Math.max(1, _)] holds for every argument. *)
Lemma currentDiff_floor (level : Z) (difficulty : string) :
  1 <= currentDiff level difficulty.
Proof.
  unfold currentDiff. destruct (tierConstants difficulty) as [b d].
  apply Q.le_max_l.
Qed.

Lemma appliedDelta_le_base (level : Z) (tier : Difficulty) :
  (1 <= level)%Z -> appliedDelta_spec level tier <= baseDelta tier.
Proof.
  intro Hl. unfold appliedDelta_spec.
  destruct (decay_range tier) as [Hd0 Hd1].
  destruct (baseDelta_range tier) as [Hb1 Hb25].
  assert (Hp : decay tier ^ (level - 1) <= 1)
    by (apply Qpower_le_1; [assumption | lra | lia]).
  apply Q.max_lub; [assumption|].
  apply Qle_trans with (baseDelta tier * 1).
  - apply Qmult_le_l; [lra | assumption].
  - rewrite Qmult_1_r. apply Qle_refl.
Qed.

Lemma appliedDelta_antitone (level level' : Z) (tier : Difficulty) :
  (level <= level')%Z ->
  appliedDelta_spec level' tier <= appliedDelta_spec level tier.
Proof.
  intro Hl. unfold appliedDelta_spec.
  destruct (decay_range tier) as [Hd0 Hd1].
  destruct (baseDelta_range tier) as [Hb1 Hb25].
  apply Q.max_le_compat_l.
  apply Qmult_le_l; [lra|].
  apply Qpower_antitone; [assumption | lra | lia].
Qed.

(** Up to level 1 the exponent is not positive and the product is at
    least the tier's [baseDelta], so [Math.max] returns the product. *)
Lemma decayed_ge_base (level : Z) (tier : Difficulty) :
  (level <= 1)%Z -> baseDelta tier <= baseDelta tier * decay tier ^ (level - 1).
Proof.
  intro Hl.
  destruct (decay_range tier) as [Hd0 Hd1].
  destruct (baseDelta_range tier) as [Hb1 _].
  assert (Hp : decay tier ^ 0 <= decay tier ^ (level - 1))
    by (apply Qpower_antitone; [assumption | lra | lia]).
  change (decay tier ^ 0) with 1 in Hp.
  apply Qle_trans with (baseDelta tier * 1).
  - rewrite Qmult_1_r. apply Qle_refl.
  - apply Qmult_le_l; [lra | assumption].
Qed.

Lemma appliedDelta_low_level (level : Z) (tier : Difficulty) :
  (level <= 1)%Z ->
  appliedDelta_spec level tier == baseDelta tier * decay tier ^ (level - 1).
Proof.
  intro Hl. unfold appliedDelta_spec.
  pose proof (decayed_ge_base level tier Hl) as Hge.
  destruct (baseDelta_range tier) as [Hb1 _].
  apply Q.max_r. lra.
Qed.

End Delta.

(** ** The shape of a generated round *)

Section Shape.

Variables (level : Z) (difficulty : string) (rng : RandomSource).

Lemma round_of_eq :
  round_of level difficulty rng =
  {| grid :=
       Array_from 25
         (fun i => {| color := if Z.eqb i (targetIndex_of rng)
                               then targetColor_of level difficulty rng
                               else baseColor_of rng;
                      isTarget := Z.eqb i (targetIndex_of rng) |});
     targetIndex := targetIndex_of rng;
     diffInfo := {| base := baseColor_of rng;
                    target := targetColor_of level difficulty rng;
                    diff := Number_toFixed (currentDiff level difficulty) 2 |}
  |}.
Proof.
  unfold round_of, generateColors, bind, Math_random, ret.
  unfold targetIndex_of, targetColor_of, baseColor_of, index_draw,
    channel_of, sign_of, h_of, s_of, l_of.
  destruct (shiftChannel (rng 3%nat)); reflexivity.
Qed.

Lemma base_round :
  base (diffInfo (round_of level difficulty rng)) = baseColor_of rng.
Proof. rewrite round_of_eq. reflexivity. Qed.

Lemma target_round :
  target (diffInfo (round_of level difficulty rng)) =
  targetColor_of level difficulty rng.
Proof. rewrite round_of_eq. reflexivity. Qed.

Lemma targetIndex_round :
  targetIndex (round_of level difficulty rng) = targetIndex_of rng.
Proof. rewrite round_of_eq. reflexivity. Qed.

Lemma diff_round :
  diff (diffInfo (round_of level difficulty rng)) =
  Number_toFixed (currentDiff level difficulty) 2.
Proof. rewrite round_of_eq. reflexivity. Qed.

Lemma grid_round :
  grid (round_of level difficulty rng) =
  Array_from 25
    (fun i => {| color := if Z.eqb i (targetIndex_of rng)
                          then targetColor_of level difficulty rng
                          else baseColor_of rng;
                 isTarget := Z.eqb i (targetIndex_of rng) |}).
Proof. rewrite round_of_eq. reflexivity. Qed.

End Shape.

(** ** Draw-derived ranges *)

Section Ranges.

Variable rng : RandomSource.
Hypothesis Hrng : unit_draws rng.

Lemma h_of_range : 0 <= h_of rng /\ h_of rng <= 359.
Proof.
  destruct (Hrng 0%nat) as [H0 H1].
  pose proof (Math_floor_draw (rng 0%nat) 360 H0 H1 eq_refl) as [Hlo Hhi].
  change (inject_Z 360) with 360 in Hlo, Hhi.
  unfold h_of. split; lra.
Qed.

Lemma s_of_range : 40 <= s_of rng /\ s_of rng <= 79.
Proof.
  destruct (Hrng 1%nat) as [H0 H1].
  pose proof (Math_floor_draw (rng 1%nat) 40 H0 H1 eq_refl) as [Hlo Hhi].
  change (inject_Z 40) with 40 in Hlo, Hhi.
  unfold s_of. split; lra.
Qed.

Lemma l_of_range : 30 <= l_of rng /\ l_of rng <= 69.
Proof.
  destruct (Hrng 2%nat) as [H0 H1].
  pose proof (Math_floor_draw (rng 2%nat) 40 H0 H1 eq_refl) as [Hlo Hhi].
  change (inject_Z 40) with 40 in Hlo, Hhi.
  unfold l_of. split; lra.
Qed.

Lemma index_draw_unit : 0 <= index_draw rng /\ index_draw rng < 1.
Proof. unfold index_draw. destruct (channel_of rng); apply Hrng. Qed.

Lemma targetIndex_of_range : (0 <= targetIndex_of rng < 25)%Z.
Proof.
  destruct index_draw_unit as [H0 H1].
  exact (floor_draw_bounds (index_draw rng) 25 H0 H1 eq_refl).
Qed.

End Ranges.

(** ** The grid built by [Array.from] *)

Section Grid.

Lemma Array_from_length {A : Type} (n : Z) (f : Z -> A) :
  List.length (Array_from n f) = Z.to_nat n.
Proof. unfold Array_from. rewrite length_map, length_seq. reflexivity. Qed.

Lemma Array_from_nth_error {A : Type} (n : Z) (f : Z -> A) (i : nat) :
  nth_error (Array_from n f) i =
  if (i <? Z.to_nat n)%nat then Some (f (Z.of_nat i)) else None.
Proof.
  unfold Array_from. rewrite nth_error_map, nth_error_seq.
  destruct (i <? Z.to_nat n)%nat; reflexivity.
Qed.

Lemma Array_from_In {A : Type} (n : Z) (f : Z -> A) (c : A) :
  In c (Array_from n f) -> exists i : Z, (0 <= i < n)%Z /\ c = f i.
Proof.
  unfold Array_from. intro H. apply in_map_iff in H.
  destruct H as [i [Hc Hi]]. apply in_seq in Hi.
  exists (Z.of_nat i). split; [lia | congruence].
Qed.

Lemma length_filter_map {A B : Type} (p : B -> bool) (g : A -> B)
  (xs : list A) :
  List.length (filter p (map g xs)) = List.length (filter (fun a => p (g a)) xs).
Proof.
  induction xs as [|a xs IH]; simpl; [reflexivity|].
  destruct (p (g a)); simpl; congruence.
Qed.

(** Among consecutive indices exactly the index [k] itself passes the
    test [i === k], when it is in the interval. *)
Lemma count_index_seq (k : Z) (n a : nat) :
  List.length (filter (fun i => Z.eqb (Z.of_nat i) k) (seq a n)) =
  if (Z.of_nat a <=? k)%Z && (k <? Z.of_nat a + Z.of_nat n)%Z
  then 1%nat else 0%nat.
Proof.
  revert a. induction n as [|n IH]; intro a.
  - cbn [seq filter List.length].
    destruct (Z.leb_spec (Z.of_nat a) k);
      destruct (Z.ltb_spec k (Z.of_nat a + Z.of_nat 0));
      cbn [andb]; try reflexivity; lia.
  - cbn [seq filter].
    destruct (Z.eqb_spec (Z.of_nat a) k) as [E|E]; cbn [List.length];
      rewrite IH;
      destruct (Z.leb_spec (Z.of_nat (S a)) k);
      destruct (Z.ltb_spec k (Z.of_nat (S a) + Z.of_nat n));
      destruct (Z.leb_spec (Z.of_nat a) k);
      destruct (Z.ltb_spec k (Z.of_nat a + Z.of_nat (S n)));
      cbn [andb]; try reflexivity; lia.
Qed.

Lemma count_targets (n k : Z) (c : Z -> HSL) :
  (0 <= k < n)%Z ->
  List.length (filter isTarget
            (Array_from n (fun i => {| color := c i;
                                       isTarget := Z.eqb i k |}))) = 1%nat.
Proof.
  intro Hk. unfold Array_from.
  rewrite length_filter_map. cbn [isTarget].
  rewrite count_index_seq.
  destruct (Z.leb_spec (Z.of_nat 0) k);
    destruct (Z.ltb_spec k (Z.of_nat 0 + Z.of_nat (Z.to_nat n)));
    cbn [andb]; try reflexivity; lia.
Qed.

End Grid.

(** ** The shifted channel *)

Section Shift.

Lemma shiftHue_mod (h d : Q) :
  0 <= h -> 0 <= d -> shiftHue h d = mod_spec (h + d) 360.
Proof.
  intros Hh Hd. unfold shiftHue. apply rem_nonneg; [lra | reflexivity].
Qed.

Lemma shiftHue_range (h d : Q) :
  0 <= h -> 0 <= d -> 0 <= shiftHue h d /\ shiftHue h d < 360.
Proof.
  intros Hh Hd. rewrite shiftHue_mod by assumption.
  apply mod_spec_bounds. reflexivity.
Qed.

(** A magnitude strictly between 0 and 360 always moves the hue. *)
Lemma shiftHue_moves (h d : Q) :
  0 < d -> d < 360 -> ~ shiftHue h d == h.
Proof.
  intros Hd0 Hd1 E. unfold shiftHue, rem in E.
  generalize dependent (trunc ((h + d) / 360)). intros k E.
  assert (Hk0 : inject_Z 0 < inject_Z k) by (change (inject_Z 0) with 0; lra).
  assert (Hk1 : inject_Z k < inject_Z 1) by (change (inject_Z 1) with 1; lra).
  rewrite <- Zlt_Qlt in Hk0, Hk1. lia.
Qed.

Lemma shiftClamped_clamp (v sign d : Q) :
  shiftClamped v sign d ==
  clamp_spec (v + (if gt sign 0.5 then d else - d)) 0 100.
Proof. unfold shiftClamped. apply min_max_clamp. Qed.

Lemma shiftClamped_range (v sign d : Q) :
  0 <= shiftClamped v sign d /\ shiftClamped v sign d <= 100.
Proof.
  rewrite shiftClamped_clamp. apply clamp_spec_bounds.
Qed.

(** Away from the ends of the scale a magnitude of at least 1 moves the
    channel even after clamping. *)
Lemma shiftClamped_moves (v sign d : Q) :
  0 < v -> v < 100 -> 0 < d -> ~ shiftClamped v sign d == v.
Proof.
  intros Hv0 Hv1 Hd. rewrite shiftClamped_clamp. unfold clamp_spec.
  destruct (gt sign 0.5).
  - destruct (Qle_bool (v + d) 0) eqn:E0.
    + apply Qle_bool_iff in E0. lra.
    + destruct (Qle_bool 100 (v + d)); lra.
  - destruct (Qle_bool (v + - d) 0) eqn:E0; [lra|].
    destruct (Qle_bool 100 (v + - d)) eqn:E1; [|lra].
    apply Qle_bool_iff in E1. lra.
Qed.

End Shift.

(** ** Concrete sources *)

Lemma unit_draws_const (q : Q) : 0 <= q -> q < 1 -> unit_draws (rng_const q).
Proof. intros H0 H1 n. unfold rng_const. split; assumption. Qed.

Lemma unit_draws_list (l : list Q) :
  unit_drawsb l = true -> unit_draws (rng_list l).
Proof.
  unfold unit_drawsb, rng_list. intros H n.
  rewrite forallb_forall in H.
  destruct (nth_in_or_default n l 0) as [Hin | Hd].
  - apply H in Hin. apply andb_true_iff in Hin. destruct Hin as [H0 H1].
    apply Qle_bool_iff in H0. apply lt_true_iff in H1. split; assumption.
  - rewrite Hd. split; [apply Qle_refl | reflexivity].
Qed.

(** ** Base and target colour of a round *)

Lemma HSL_eq_refl (c : HSL) : HSL_eq c c.
Proof. unfold HSL_eq. repeat split; apply Qeq_refl. Qed.

(** With a magnitude between 1 and 25 the shifted channel of the target
    never lands on the base value. *)
Lemma target_differs (level : Z) (difficulty : string) (rng : RandomSource) :
  unit_draws rng ->
  currentDiff level difficulty <= 25 ->
  ~ HSL_eq (baseColor_of rng) (targetColor_of level difficulty rng).
Proof.
  intros Hrng Hd25.
  pose proof (currentDiff_floor level difficulty) as Hd1.
  destruct (s_of_range rng Hrng) as [Hs0 Hs1].
  destruct (l_of_range rng Hrng) as [Hl0 Hl1].
  unfold HSL_eq, baseColor_of, targetColor_of.
  destruct (channel_of rng); cbn [hue saturation lightness];
    intros [Eh [Es El]].
  - apply (shiftHue_moves (h_of rng) (currentDiff level difficulty));
      [lra | lra | symmetry; assumption].
  - apply (shiftClamped_moves (s_of rng) (sign_of rng)
             (currentDiff level difficulty));
      [lra | lra | lra | symmetry; assumption].
  - apply (shiftClamped_moves (l_of rng) (sign_of rng)
             (currentDiff level difficulty));
      [lra | lra | lra | symmetry; assumption].
Qed.

(** A round reads at most the first six draws of its source. *)
Lemma round_of_same_draws (level : Z) (difficulty : string)
  (rng rng' : RandomSource) :
  same_draws 6 rng rng' ->
  round_of level difficulty rng' = round_of level difficulty rng.
Proof.
  intro H.
  assert (E0 : rng 0%nat = rng' 0%nat) by (apply H; lia).
  assert (E1 : rng 1%nat = rng' 1%nat) by (apply H; lia).
  assert (E2 : rng 2%nat = rng' 2%nat) by (apply H; lia).
  assert (E3 : rng 3%nat = rng' 3%nat) by (apply H; lia).
  assert (E4 : rng 4%nat = rng' 4%nat) by (apply H; lia).
  assert (E5 : rng 5%nat = rng' 5%nat) by (apply H; lia).
  rewrite !round_of_eq.
  unfold targetIndex_of, targetColor_of, baseColor_of, index_draw,
    channel_of, sign_of, h_of, s_of, l_of.
  rewrite <- E0, <- E1, <- E2, <- E3, <- E4, <- E5. reflexivity.
Qed.

(** * The claims *)

(** C1: for every level from 1 on, every tier and every source of draws in
    [0,1), the base colour of the generated round differs from its target
    colour, and the round is a function of the level, the tier and the
    draws: two sources with the same first six draws give the same round. *)
Theorem C1_base_differs_from_target
  (level : Z) (tier : Difficulty) (rng rng' : RandomSource) :
  (1 <= level)%Z ->
  unit_draws rng ->
  let R := round_of level (Difficulty_value tier) rng in
  ~ HSL_eq (base (diffInfo R)) (target (diffInfo R)) /\
  base (diffInfo R) <> target (diffInfo R) /\
  (same_draws 6 rng rng' ->
   round_of level (Difficulty_value tier) rng' = R).
Proof.
  intros Hl Hrng R.
  assert (Hne : ~ HSL_eq (base (diffInfo R)) (target (diffInfo R))).
  { unfold R. rewrite base_round, target_round.
    apply target_differs; [assumption|].
    rewrite currentDiff_tier.
    apply Qle_trans with (baseDelta tier).
    - apply appliedDelta_le_base. assumption.
    - apply baseDelta_range. }
  split; [exact Hne|]. split.
  - intro E. apply Hne. rewrite E. apply HSL_eq_refl.
  - apply round_of_same_draws.
Qed.

Lemma C1_witness :
  (1 <= 7)%Z /\
  unit_draws (rng_list [0.5; 0.96; 0.3; 0.1; 0.7; 0.99]) /\
  let R := round_of 7 (Difficulty_value HARD)
             (rng_list [0.5; 0.96; 0.3; 0.1; 0.7; 0.99]) in
  ~ HSL_eq (base (diffInfo R)) (target (diffInfo R)) /\
  base (diffInfo R) <> target (diffInfo R) /\
  (same_draws 6 (rng_list [0.5; 0.96; 0.3; 0.1; 0.7; 0.99])
     (rng_list [0.5; 0.96; 0.3; 0.1; 0.7; 0.99; 0.25]) ->
   round_of 7 (Difficulty_value HARD)
     (rng_list [0.5; 0.96; 0.3; 0.1; 0.7; 0.99; 0.25]) = R).
Proof.
  split; [lia|].
  split; [apply unit_draws_list; reflexivity|].
  apply (C1_base_differs_from_target 7 HARD
           (rng_list [0.5; 0.96; 0.3; 0.1; 0.7; 0.99])
           (rng_list [0.5; 0.96; 0.3; 0.1; 0.7; 0.99; 0.25]));
    [lia | apply unit_draws_list; reflexivity].
Defined.

(** C2: on the three tiers the applied magnitude is
    [max(1, baseDelta * decay^(level-1))] with the constants 25 and 0.97
    for EASY, 15 and 0.95 for NORMAL, 12 and 0.92 for HARD; at level 1 it
    is the tier's [baseDelta] itself: 25, 15 and 12. *)
Theorem C2_applied_delta_formula (level : Z) (tier : Difficulty) :
  (1 <= level)%Z ->
  currentDiff level (Difficulty_value tier) ==
    Qmax 1 (baseDelta tier * decay tier ^ (level - 1)) /\
  (currentDiff level "EASY" == Qmax 1 (25 * 0.97 ^ (level - 1)) /\
   currentDiff level "NORMAL" == Qmax 1 (15 * 0.95 ^ (level - 1)) /\
   currentDiff level "HARD" == Qmax 1 (12 * 0.92 ^ (level - 1))) /\
  currentDiff 1 (Difficulty_value tier) == baseDelta tier /\
  (currentDiff 1 "EASY" == 25 /\
   currentDiff 1 "NORMAL" == 15 /\
   currentDiff 1 "HARD" == 12).
Proof.
  intros _. split; [|split; [|split]].
  - rewrite currentDiff_tier. reflexivity.
  - repeat split; reflexivity.
  - destruct tier; reflexivity.
  - repeat split; reflexivity.
Qed.

Lemma C2_witness :
  (1 <= 3)%Z /\
  currentDiff 3 (Difficulty_value NORMAL) ==
    Qmax 1 (baseDelta NORMAL * decay NORMAL ^ (3 - 1)) /\
  currentDiff 3 (Difficulty_value NORMAL) == 13.5375.
Proof.
  split; [lia|]. split.
  - apply (C2_applied_delta_formula 3 NORMAL). lia.
  - reflexivity.
Defined.

(** C3: for a fixed tier the applied magnitude does not increase when the
    level increases, and at every level from 1 on, however large, it is at
    least 1, hence a positive number. *)
Theorem C3_applied_delta_antitone_floored
  (tier : Difficulty) (level level' : Z) :
  (1 <= level)%Z -> (level <= level')%Z ->
  currentDiff level' (Difficulty_value tier) <=
    currentDiff level (Difficulty_value tier) /\
  1 <= currentDiff level (Difficulty_value tier) /\
  1 <= currentDiff level' (Difficulty_value tier) /\
  0 < currentDiff level' (Difficulty_value tier).
Proof.
  intros Hl Hll.
  pose proof (currentDiff_floor level (Difficulty_value tier)) as H1.
  pose proof (currentDiff_floor level' (Difficulty_value tier)) as H2.
  split; [|split; [assumption | split; [assumption | lra]]].
  rewrite !currentDiff_tier. apply appliedDelta_antitone. assumption.
Qed.

Lemma C3_witness :
  (1 <= 2)%Z /\ (2 <= 50)%Z /\
  currentDiff 50 (Difficulty_value HARD) <=
    currentDiff 2 (Difficulty_value HARD) /\
  1 <= currentDiff 50 (Difficulty_value HARD).
Proof.
  split; [lia|]. split; [lia|].
  destruct (C3_applied_delta_antitone_floored HARD 2 50) as [Hm [_ [Hf _]]];
    [lia | lia |].
  split; assumption.
Defined.

(** C4: with [GRID_SIZE = 5] the target index of a generated round lies in
    [0, 25), the grid has 25 cells of which exactly one has [isTarget]
    set, the cell at the target index is that cell and carries the target
    colour, and every other cell carries the base colour. *)
Theorem C4_one_target_cell
  (level : Z) (difficulty : string) (rng : RandomSource) :
  unit_draws rng ->
  let R := round_of level difficulty rng in
  GRID_SIZE = 5%Z /\
  (0 <= targetIndex R < GRID_SIZE * GRID_SIZE)%Z /\
  List.length (grid R) = 25%nat /\
  List.length (filter isTarget (grid R)) = 1%nat /\
  (forall (i : nat) (c : Cell),
     nth_error (grid R) i = Some c ->
     (Z.of_nat i = targetIndex R ->
      isTarget c = true /\ color c = target (diffInfo R)) /\
     (Z.of_nat i <> targetIndex R ->
      isTarget c = false /\ color c = base (diffInfo R))).
Proof.
  intros Hrng R.
  pose proof (targetIndex_of_range rng Hrng) as Hidx.
  unfold R. rewrite targetIndex_round, grid_round, base_round, target_round.
  split; [reflexivity|]. split; [exact Hidx|].
  split; [rewrite Array_from_length; reflexivity|].
  split; [apply count_targets; exact Hidx|].
  intros i c Hc. rewrite Array_from_nth_error in Hc.
  destruct (i <? Z.to_nat 25)%nat; [|discriminate].
  injection Hc as Hc. subst c. cbn [isTarget color].
  split; intro Hi.
  - apply Z.eqb_eq in Hi. rewrite Hi. split; reflexivity.
  - apply Z.eqb_neq in Hi. rewrite Hi. split; reflexivity.
Qed.

Lemma C4_witness :
  unit_draws (rng_list [0.5; 0.96; 0.3; 0.5; 0.7; 0.99]) /\
  let R := round_of 3 (Difficulty_value NORMAL)
             (rng_list [0.5; 0.96; 0.3; 0.5; 0.7; 0.99]) in
  targetIndex R = 24%Z /\
  List.length (filter isTarget (grid R)) = 1%nat.
Proof.
  split; [apply unit_draws_list; reflexivity|].
  split; [reflexivity|].
  apply (C4_one_target_cell 3 (Difficulty_value NORMAL)
           (rng_list [0.5; 0.96; 0.3; 0.5; 0.7; 0.99])).
  apply unit_draws_list; reflexivity.
Defined.

(** C5 as stated fails: the draws 0.66 and 0.995 both select lightness
    although they lie more than 1/3 apart, so the sets of draws that select
    the three channels are not three intervals of width 1/3. *)
Lemma C5_counterexample :
  shiftChannel 0.66 = Lightness /\
  shiftChannel 0.995 = Lightness /\
  1 / 3 < 0.995 - 0.66 /\
  ~ equal_thirds shiftChannel.
Proof.
  split; [reflexivity|]. split; [reflexivity|]. split; [reflexivity|].
  intro H. destruct (H Lightness) as [a [b [Hw Hab]]].
  change (1 / 3) with (1 # 3) in Hw.
  assert (H1 : a <= 0.66 /\ 0.66 < b).
  { apply (Hab 0.66); [lra | lra | reflexivity]. }
  assert (H2 : a <= 0.995 /\ 0.995 < b).
  { apply (Hab 0.995); [lra | lra | reflexivity]. }
  lra.
Qed.

(** C5, amended: the channel is chosen from the single draw [shiftType] by
    the thresholds 0.33 and 0.66: hue below 0.33, saturation from 0.33 up
    to 0.66, lightness from 0.66 on; within [0,1) the three intervals have
    the widths 0.33, 0.33 and 0.34. *)
Theorem C5_channel_thresholds (shiftType : Q) :
  (shiftChannel shiftType = Hue <-> shiftType < 0.33) /\
  (shiftChannel shiftType = Saturation <->
     0.33 <= shiftType /\ shiftType < 0.66) /\
  (shiftChannel shiftType = Lightness <-> 0.66 <= shiftType) /\
  (0.33 - 0 == 0.33 /\ 0.66 - 0.33 == 0.33 /\ 1 - 0.66 == 0.34).
Proof.
  unfold shiftChannel.
  destruct (lt shiftType 0.33) eqn:E1.
  - apply lt_true_iff in E1.
    repeat split; try reflexivity; try assumption;
      try discriminate; intros; lra.
  - apply lt_false_iff in E1.
    destruct (lt shiftType 0.66) eqn:E2.
    + apply lt_true_iff in E2.
      repeat split; try reflexivity; try assumption;
        try discriminate; intros; lra.
    + apply lt_false_iff in E2.
      repeat split; try reflexivity; try assumption;
        try discriminate; intros; lra.
Qed.

(** C6: when the draw selects hue the target hue is [(h + d) mod 360];
    when it selects saturation or lightness the target value is
    [clamp(base + d, 0, 100)] if the sign draw exceeds 0.5 and
    [clamp(base - d, 0, 100)] otherwise; a saturation of 78 shifted up by
    25 gives exactly 100. *)
Theorem C6_channel_shift
  (level : Z) (difficulty : string) (rng : RandomSource) :
  unit_draws rng ->
  let R := round_of level difficulty rng in
  let b := base (diffInfo R) in
  let t := target (diffInfo R) in
  let d := currentDiff level difficulty in
  (channel_of rng = Hue -> hue t == mod_spec (hue b + d) 360) /\
  (channel_of rng = Saturation ->
   saturation t ==
     clamp_spec (saturation b + (if gt (sign_of rng) 0.5 then d else - d))
       0 100) /\
  (channel_of rng = Lightness ->
   lightness t ==
     clamp_spec (lightness b + (if gt (sign_of rng) 0.5 then d else - d))
       0 100) /\
  (forall sign : Q, 0.5 < sign -> shiftClamped 78 sign 25 == 100).
Proof.
  intros Hrng R b t d.
  unfold b, t, R. rewrite base_round, target_round.
  unfold baseColor_of, targetColor_of. fold d.
  pose proof (currentDiff_floor level difficulty) as Hd. fold d in Hd.
  destruct (h_of_range rng Hrng) as [Hh0 Hh1].
  split; [|split; [|split]].
  - intro E. rewrite E. cbn [hue].
    rewrite shiftHue_mod by lra. reflexivity.
  - intro E. rewrite E. cbn [saturation]. apply shiftClamped_clamp.
  - intro E. rewrite E. cbn [lightness]. apply shiftClamped_clamp.
  - intros sign Hs. apply lt_true_iff in Hs.
    unfold shiftClamped, gt. rewrite Hs. reflexivity.
Qed.

Lemma C6_witness :
  unit_draws (rng_list [0.5; 0.96; 0.3; 0.5; 0.7; 0.99]) /\
  channel_of (rng_list [0.5; 0.96; 0.3; 0.5; 0.7; 0.99]) = Saturation /\
  let R := round_of 1 (Difficulty_value EASY)
             (rng_list [0.5; 0.96; 0.3; 0.5; 0.7; 0.99]) in
  saturation (base (diffInfo R)) == 78 /\
  currentDiff 1 (Difficulty_value EASY) == 25 /\
  saturation (target (diffInfo R)) ==
    clamp_spec (saturation (base (diffInfo R)) +
                (if gt (sign_of (rng_list [0.5; 0.96; 0.3; 0.5; 0.7; 0.99]))
                      0.5
                 then currentDiff 1 (Difficulty_value EASY)
                 else - currentDiff 1 (Difficulty_value EASY))) 0 100 /\
  saturation (target (diffInfo R)) == 100.
Proof.
  split; [apply unit_draws_list; reflexivity|].
  split; [reflexivity|].
  split; [reflexivity|]. split; [reflexivity|]. split; [|reflexivity].
  apply (C6_channel_shift 1 (Difficulty_value EASY)
           (rng_list [0.5; 0.96; 0.3; 0.5; 0.7; 0.99])).
  - apply unit_draws_list; reflexivity.
  - reflexivity.
Defined.

(** The target colour keeps every channel inside its range. *)
Lemma targetColor_in_range
  (level : Z) (difficulty : string) (rng : RandomSource) :
  unit_draws rng -> HSL_in_range (targetColor_of level difficulty rng).
Proof.
  intro Hrng.
  pose proof (currentDiff_floor level difficulty) as Hd.
  destruct (h_of_range rng Hrng) as [Hh0 Hh1].
  destruct (s_of_range rng Hrng) as [Hs0 Hs1].
  destruct (l_of_range rng Hrng) as [Hl0 Hl1].
  unfold HSL_in_range, targetColor_of.
  destruct (channel_of rng); cbn [hue saturation lightness].
  - split; [apply shiftHue_range; lra|]. split; split; lra.
  - split; [split; lra|]. split; [apply shiftClamped_range | split; lra].
  - split; [split; lra|]. split; [split; lra | apply shiftClamped_range].
Qed.

Lemma baseColor_in_range (rng : RandomSource) :
  unit_draws rng -> HSL_in_range (baseColor_of rng).
Proof.
  intro Hrng.
  destruct (h_of_range rng Hrng) as [Hh0 Hh1].
  destruct (s_of_range rng Hrng) as [Hs0 Hs1].
  destruct (l_of_range rng Hrng) as [Hl0 Hl1].
  unfold HSL_in_range, baseColor_of. cbn [hue saturation lightness].
  repeat split; lra.
Qed.

(** C7: for every source of draws in [0,1) the base colour has its hue in
    [0,360), its saturation in [40,80] and its lightness in [30,70]; the
    base colour, the target colour and the colour of every grid cell have
    their hue in [0,360) and their saturation and lightness in [0,100]. *)
Theorem C7_colour_ranges
  (level : Z) (difficulty : string) (rng : RandomSource) :
  unit_draws rng ->
  let R := round_of level difficulty rng in
  let b := base (diffInfo R) in
  ((0 <= hue b /\ hue b < 360) /\
   (40 <= saturation b /\ saturation b <= 80) /\
   (30 <= lightness b /\ lightness b <= 70)) /\
  HSL_in_range b /\
  HSL_in_range (target (diffInfo R)) /\
  (forall c : Cell, In c (grid R) -> HSL_in_range (color c)).
Proof.
  intros Hrng R b. unfold b, R.
  rewrite base_round, target_round, grid_round.
  pose proof (baseColor_in_range rng Hrng) as Hb.
  pose proof (targetColor_in_range level difficulty rng Hrng) as Ht.
  destruct (h_of_range rng Hrng) as [Hh0 Hh1].
  destruct (s_of_range rng Hrng) as [Hs0 Hs1].
  destruct (l_of_range rng Hrng) as [Hl0 Hl1].
  split; [|split; [exact Hb | split; [exact Ht|]]].
  - unfold baseColor_of. cbn [hue saturation lightness].
    repeat split; lra.
  - intros c Hc. apply Array_from_In in Hc.
    destruct Hc as [i [_ Hc]]. subst c. cbn [color].
    destruct (Z.eqb i (targetIndex_of rng)); assumption.
Qed.

Lemma C7_witness :
  unit_draws (rng_list [0.999; 0.999; 0.999; 0.7; 0.6; 0]) /\
  let R := round_of 1 (Difficulty_value EASY)
             (rng_list [0.999; 0.999; 0.999; 0.7; 0.6; 0]) in
  base (diffInfo R) = hsl 359 79 69 /\
  HSL_in_range (target (diffInfo R)).
Proof.
  split; [apply unit_draws_list; reflexivity|].
  split; [reflexivity|].
  apply (C7_colour_ranges 1 (Difficulty_value EASY)
           (rng_list [0.999; 0.999; 0.999; 0.7; 0.6; 0])).
  apply unit_draws_list; reflexivity.
Defined.

(** C8 as stated fails: at level 3 of NORMAL the magnitude used for the
    shift is 13.5375 while the recorded [diff] is 13.54. *)
Lemma C8_counterexample :
  (1 <= 3)%Z /\
  currentDiff 3 (Difficulty_value NORMAL) == 13.5375 /\
  appliedDelta_spec 3 NORMAL == 13.5375 /\
  diff (diffInfo (round_of 3 (Difficulty_value NORMAL) (rng_const 0.5)))
    == 13.54 /\
  ~ diff (diffInfo (round_of 3 (Difficulty_value NORMAL) (rng_const 0.5)))
    == appliedDelta_spec 3 NORMAL.
Proof.
  split; [lia|]. split; [reflexivity|]. split; [reflexivity|].
  split; [reflexivity|].
  intro H. vm_compute in H. discriminate H.
Qed.

(** C8, amended: the recorded [diff] is the magnitude used for the shift,
    [max(1, baseDelta * decay^(level-1))], rounded to two decimals (halves
    upwards); it is within 0.005 of that magnitude. *)
Theorem C8_recorded_delta_rounded
  (level : Z) (tier : Difficulty) (rng : RandomSource) :
  (1 <= level)%Z ->
  let R := round_of level (Difficulty_value tier) rng in
  let d := currentDiff level (Difficulty_value tier) in
  d == appliedDelta_spec level tier /\
  diff (diffInfo R) == round2_spec d /\
  Qabs (diff (diffInfo R) - d) <= 0.005.
Proof.
  intros Hl R d.
  assert (Hd : diff (diffInfo R) == round2_spec d).
  { unfold R, d. rewrite diff_round. apply Number_toFixed_2.
    - pose proof (currentDiff_floor level (Difficulty_value tier)). lra.
    - rewrite currentDiff_tier.
      apply Qle_trans with (baseDelta tier).
      + apply appliedDelta_le_base. assumption.
      + apply baseDelta_range. }
  split; [unfold d; rewrite currentDiff_tier; reflexivity|].
  split; [exact Hd|].
  rewrite Hd. apply round2_spec_close.
Qed.

Lemma C8_witness :
  (1 <= 3)%Z /\
  diff (diffInfo (round_of 3 (Difficulty_value NORMAL) (rng_const 0.5)))
    == round2_spec (currentDiff 3 (Difficulty_value NORMAL)) /\
  round2_spec (currentDiff 3 (Difficulty_value NORMAL)) == 13.54.
Proof.
  split; [lia|]. split; [|reflexivity].
  apply (C8_recorded_delta_rounded 3 NORMAL (rng_const 0.5)). lia.
Defined.

(** Any string that is not a value of the enum is handled as NORMAL. *)
Lemma currentDiff_other (level : Z) (difficulty : string) :
  (forall tier : Difficulty, difficulty <> Difficulty_value tier) ->
  currentDiff level difficulty = currentDiff level (Difficulty_value NORMAL).
Proof.
  intro H. unfold currentDiff.
  rewrite (tierConstants_other difficulty); [reflexivity | |].
  - exact (H EASY).
  - exact (H HARD).
Qed.

(** C9 as stated fails: a call at level 0 and a call with a string that is
    no tier both complete normally with a round; no call of
    [generateColors] signals an error. *)
Lemma C9_counterexample :
  (exists R : Round,
     call_generateColors 0 (Difficulty_value NORMAL) (rng_const 0.5)
       = Normal R /\
     diff (diffInfo R) == 15.79) /\
  (exists R : Round,
     call_generateColors 1 "EXPERT" (rng_const 0.5) = Normal R /\
     diff (diffInfo R) == 15) /\
  ~ (forall (level : Z) (difficulty : string) (rng : RandomSource),
       (level < 1)%Z \/
       (forall tier : Difficulty, difficulty <> Difficulty_value tier) ->
       exists error : string,
         call_generateColors level difficulty rng = Throw error).
Proof.
  split; [|split].
  - eexists. split; [reflexivity|]. reflexivity.
  - eexists. split; [reflexivity|]. reflexivity.
  - intro H.
    destruct (H 0%Z (Difficulty_value NORMAL) (rng_const 0.5)) as [e He].
    + left. lia.
    + discriminate He.
Qed.

(** C9, amended: [generateColors] has no precondition check and signals
    nothing.  For every level and every string it completes normally with
    a round; a string that is no tier is handled as NORMAL; at a level
    below 1 the magnitude is [baseDelta * decay^(level-1)], which is at
    least the tier's [baseDelta]. *)
Theorem C9_out_of_domain_completes
  (level : Z) (difficulty : string) (rng : RandomSource) :
  call_generateColors level difficulty rng =
    Normal (round_of level difficulty rng) /\
  ((forall tier : Difficulty, difficulty <> Difficulty_value tier) ->
   round_of level difficulty rng =
     round_of level (Difficulty_value NORMAL) rng) /\
  (forall tier : Difficulty,
     (level < 1)%Z ->
     currentDiff level (Difficulty_value tier) ==
       baseDelta tier * decay tier ^ (level - 1) /\
     baseDelta tier <= currentDiff level (Difficulty_value tier)).
Proof.
  split; [reflexivity|]. split.
  - intro H. rewrite !round_of_eq. unfold targetColor_of.
    rewrite (currentDiff_other level difficulty H). reflexivity.
  - intros tier Hl.
    rewrite currentDiff_tier, appliedDelta_low_level by lia.
    split; [reflexivity|].
    apply decayed_ge_base. lia.
Qed.

Lemma C9_witness :
  (forall tier : Difficulty, "EXPERT" <> Difficulty_value tier) /\
  round_of 0 "EXPERT" (rng_const 0.5) =
    round_of 0 (Difficulty_value NORMAL) (rng_const 0.5) /\
  (0 < 1)%Z /\
  baseDelta HARD <= currentDiff 0 (Difficulty_value HARD).
Proof.
  assert (Hn : forall tier : Difficulty, "EXPERT" <> Difficulty_value tier)
    by (intros []; discriminate).
  split; [exact Hn|].
  destruct (C9_out_of_domain_completes 0 "EXPERT" (rng_const 0.5))
    as [_ [Hother Hlow]].
  split; [exact (Hother Hn)|].
  split; [lia|].
  apply (Hlow HARD). lia.
Defined.

(** C10: the target colour differs from the base colour in at most one
    channel: the two channels that the draw [shiftType] does not select
    have the same value in both colours. *)
Theorem C10_other_channels_unchanged
  (level : Z) (difficulty : string) (rng : RandomSource) :
  let R := round_of level difficulty rng in
  let b := base (diffInfo R) in
  let t := target (diffInfo R) in
  match shiftChannel (rng 3%nat) with
  | Hue => saturation t = saturation b /\ lightness t = lightness b
  | Saturation => hue t = hue b /\ lightness t = lightness b
  | Lightness => hue t = hue b /\ saturation t = saturation b
  end.
Proof.
  intros R b t. unfold b, t, R.
  rewrite base_round, target_round.
  unfold targetColor_of, baseColor_of, channel_of.
  destruct (shiftChannel (rng 3%nat)); split; reflexivity.
Qed.

(** * The component around the generator *)

(** ** Draws consumed by one round *)

Lemma bind_eq {A B : Type} (c : Rand A) (k : A -> Rand B)
  (rng : RandomSource) :
  bind c k rng = k (fst (c rng)) (snd (c rng)).
Proof. unfold bind. destruct (c rng); reflexivity. Qed.

Lemma generateColors_rest
  (level : Z) (difficulty : string) (rng : RandomSource) :
  snd (generateColors level difficulty rng) = drop (draws_used rng) rng.
Proof.
  unfold generateColors, bind, Math_random, ret, draws_used, channel_of, drop.
  destruct (shiftChannel (rng 3%nat)); reflexivity.
Qed.

Lemma generateColors_eq
  (level : Z) (difficulty : string) (rng : RandomSource) :
  generateColors level difficulty rng =
  (round_of level difficulty rng, drop (draws_used rng) rng).
Proof.
  rewrite <- (generateColors_rest level difficulty rng). unfold round_of.
  destruct (generateColors level difficulty rng); reflexivity.
Qed.

Lemma unit_draws_drop (k : nat) (rng : RandomSource) :
  unit_draws rng -> unit_draws (drop k rng).
Proof. intros H n. unfold drop. apply H. Qed.

(** ** One step of the component *)

Lemma startGame_eq (s : App.State) (rng : RandomSource) :
  App.startGame s rng =
  (let R := round_of (App.level s) (Difficulty_value (App.difficulty s)) rng in
   {| App.status := App.PLAYING; App.language := App.language s;
      App.difficulty := App.difficulty s;
      App.score := 0; App.level := 1; App.timeLeft := INITIAL_TIME;
      App.grid := newGrid R; App.targetIndex := newTargetIndex R;
      App.diffInfo := Some (newDiffInfo R); App.wrongClicks := 0 |},
   drop (draws_used rng) rng).
Proof.
  unfold App.startGame. rewrite bind_eq, generateColors_eq. reflexivity.
Qed.

Lemma click_correct_eq (s : App.State) (rng : RandomSource) :
  App.status s = App.PLAYING ->
  App.handleBlockClick (App.targetIndex s) s rng =
  (let R := round_of (App.level s) (Difficulty_value (App.difficulty s)) rng in
   {| App.status := App.PLAYING; App.language := App.language s;
      App.difficulty := App.difficulty s;
      App.score := App.score s + 1; App.level := App.level s + 1;
      App.timeLeft := Z.min INITIAL_TIME (App.timeLeft s + 2);
      App.grid := newGrid R; App.targetIndex := newTargetIndex R;
      App.diffInfo := Some (newDiffInfo R);
      App.wrongClicks := App.wrongClicks s |},
   drop (draws_used rng) rng).
Proof.
  intro Hs. unfold App.handleBlockClick. rewrite Hs, Z.eqb_refl.
  rewrite bind_eq, generateColors_eq. reflexivity.
Qed.

Lemma step_unit_draws (e : App.Event) (s : App.State) (rng : RandomSource) :
  unit_draws rng -> unit_draws (snd (App.step e s rng)).
Proof.
  intro H. destruct e; cbn [App.step ret snd]; try assumption.
  - rewrite startGame_eq. cbn [snd]. apply unit_draws_drop. assumption.
  - unfold App.handleBlockClick.
    destruct (App.status s); cbn [ret snd]; try assumption.
    destruct (Z.eqb index (App.targetIndex s)); cbn [ret snd];
      try assumption.
    rewrite bind_eq, generateColors_eq. cbn [ret snd fst].
    apply unit_draws_drop. assumption.
Qed.

(** A property kept by every step holds after every run. *)
Lemma run_preserves (P : App.State -> Prop) :
  (forall (e : App.Event) (s : App.State) (rng : RandomSource),
     unit_draws rng -> P s -> P (fst (App.step e s rng))) ->
  forall (es : list App.Event) (s : App.State) (rng : RandomSource),
    unit_draws rng -> P s -> P (fst (App.run es s rng)).
Proof.
  intros Hstep es. induction es as [|e es IH]; intros s rng Hrng Hs.
  - exact Hs.
  - cbn [App.run]. rewrite bind_eq. apply IH.
    + apply step_unit_draws. assumption.
    + apply Hstep; assumption.
Qed.

Ltac counters Hg :=
  repeat split; try (unfold INITIAL_TIME in *; lia); try discriminate;
  try assumption;
  try (intro; first [congruence | apply Hg; congruence]).

Lemma step_counters_ok (e : App.Event) (s : App.State) (rng : RandomSource) :
  App.counters_ok s -> App.counters_ok (fst (App.step e s rng)).
Proof.
  unfold App.counters_ok, INITIAL_TIME.
  intros [Hl [Hs [Hw [Ht Hg]]]].
  destruct e; cbn [App.step ret fst].
  - rewrite startGame_eq. cbn. counters Hg.
  - unfold App.handleBlockClick.
    destruct (App.status s) eqn:Est; cbn [ret fst]; try solve [counters Hg].
    destruct (Z.eqb index (App.targetIndex s)).
    + rewrite bind_eq, generateColors_eq. cbn. counters Hg.
    + cbn. counters Hg.
  - unfold App.tick.
    destruct (App.status s) eqn:Est; try solve [counters Hg].
    destruct (Z.leb_spec (App.timeLeft s) 1); cbn; counters Hg.
  - cbn. counters Hg.
  - cbn. counters Hg.
  - cbn. counters Hg.
Qed.

Lemma initial_counters_ok : App.counters_ok App.initial.
Proof.
  unfold App.counters_ok, INITIAL_TIME. cbn.
  repeat split; try lia; discriminate.
Qed.

Lemma run_counters_ok
  (es : list App.Event) (s : App.State) (rng : RandomSource) :
  App.counters_ok s -> App.counters_ok (fst (App.run es s rng)).
Proof.
  revert s rng. induction es as [|e es IH]; intros s rng Hs.
  - exact Hs.
  - cbn [App.run]. rewrite bind_eq. apply IH.
    apply step_counters_ok. assumption.
Qed.

Lemma currentDiff_le_25 (level : Z) (tier : Difficulty) :
  (1 <= level)%Z -> currentDiff level (Difficulty_value tier) <= 25.
Proof.
  intro Hl. rewrite currentDiff_tier.
  apply Qle_trans with (baseDelta tier).
  - apply appliedDelta_le_base. assumption.
  - apply baseDelta_range.
Qed.

(** Outside the start screen the state holds a generated round. *)
Lemma step_has_round (e : App.Event) (s : App.State) (rng : RandomSource) :
  unit_draws rng ->
  App.counters_ok s /\ (App.status s = App.START \/ App.has_round s) ->
  App.counters_ok (fst (App.step e s rng)) /\
  (App.status (fst (App.step e s rng)) = App.START \/
   App.has_round (fst (App.step e s rng))).
Proof.
  intros Hrng [Hc Hr].
  split; [apply step_counters_ok; assumption|].
  assert (Hlvl : (1 <= App.level s)%Z).
  { destruct Hc as [Hl [Hs _]]. lia. }
  assert (Hnew : App.has_round
                   (fst (App.startGame s rng)) /\
                 (App.status s = App.PLAYING ->
                  App.has_round
                    (fst (App.handleBlockClick (App.targetIndex s) s rng)))).
  { split.
    - rewrite startGame_eq. cbn [fst].
      exists (App.level s), (App.difficulty s), rng.
      split; [assumption | split; [assumption|]].
      unfold App.shows_round. cbn. repeat split.
    - intro Hp. rewrite (click_correct_eq s rng Hp). cbn [fst].
      exists (App.level s), (App.difficulty s), rng.
      split; [assumption | split; [assumption|]].
      unfold App.shows_round. cbn. repeat split. }
  destruct Hnew as [Hstart Hclick].
  destruct e; cbn [App.step ret fst].
  - right. exact Hstart.
  - unfold App.handleBlockClick.
    destruct (App.status s) eqn:Est; cbn [ret fst].
    + left. exact Est.
    + destruct (Z.eqb_spec index (App.targetIndex s)) as [E|E].
      * right. subst index.
        specialize (Hclick eq_refl).
        rewrite (click_correct_eq s rng Est) in Hclick. cbn [fst] in Hclick.
        rewrite bind_eq, generateColors_eq. cbn [ret fst snd].
        exact Hclick.
      * right. destruct Hr as [Hr | Hr]; [congruence|].
        destruct Hr as [lvl [d [r [H1 [H2 [H3 [H4 H5]]]]]]].
        exists lvl, d, r.
        split; [assumption | split; [assumption|]].
        unfold App.shows_round; cbn; repeat split; assumption.
    + destruct Hr as [Hr | Hr]; [left; congruence | right; exact Hr].
  - unfold App.tick.
    destruct (App.status s) eqn:Est.
    + left. exact Est.
    + right. destruct Hr as [Hr | Hr]; [congruence|].
      destruct Hr as [lvl [d [r [H1 [H2 [H3 [H4 H5]]]]]]].
      destruct (App.timeLeft s <=? 1)%Z;
        exists lvl, d, r;
        (split; [assumption | split; [assumption|]]);
        unfold App.shows_round; cbn; repeat split; assumption.
    + destruct Hr as [Hr | Hr]; [left; congruence | right; exact Hr].
  - left. reflexivity.
  - destruct Hr as [Hr | Hr]; [left; exact Hr | right].
    destruct Hr as [lvl [d [r [H1 [H2 [H3 [H4 H5]]]]]]].
    exists lvl, d, r.
    split; [assumption | split; [assumption|]].
    unfold App.shows_round; cbn; repeat split; assumption.
  - destruct Hr as [Hr | Hr]; [left; exact Hr | right].
    destruct Hr as [lvl [d [r [H1 [H2 [H3 [H4 H5]]]]]]].
    exists lvl, d, r.
    split; [assumption | split; [assumption|]].
    unfold App.shows_round; cbn; repeat split; assumption.
Qed.

Lemma run_has_round (es : list App.Event) (rng : RandomSource) :
  unit_draws rng ->
  App.status (fst (App.run es App.initial rng)) = App.PLAYING ->
  App.has_round (fst (App.run es App.initial rng)).
Proof.
  intros Hrng Hp.
  pose proof (run_preserves
                (fun s => App.counters_ok s /\
                          (App.status s = App.START \/ App.has_round s))
                step_has_round es App.initial rng Hrng) as H.
  destruct H as [_ [H | H]].
  - split; [apply initial_counters_ok | left; reflexivity].
  - congruence.
  - exact H.
Qed.

(** X1: in every state the component can reach from its initial state the
    level is the score plus one, and neither the score nor the count of
    wrong clicks is negative. *)
Theorem X1_level_is_score_plus_one
  (es : list App.Event) (rng : RandomSource) :
  let s := fst (App.run es App.initial rng) in
  App.level s = (App.score s + 1)%Z /\
  (0 <= App.score s)%Z /\
  (0 <= App.wrongClicks s)%Z.
Proof.
  intro s.
  destruct (run_counters_ok es App.initial rng initial_counters_ok)
    as [Hl [Hs [Hw _]]].
  repeat split; assumption.
Qed.

(** X2: in every reachable state the time left is between 0 and 30
    seconds, and it is 0 whenever the game is over. *)
Theorem X2_time_left_bounds
  (es : list App.Event) (rng : RandomSource) :
  let s := fst (App.run es App.initial rng) in
  (0 <= App.timeLeft s <= 30)%Z /\
  (App.status s = App.GAMEOVER -> App.timeLeft s = 0%Z).
Proof.
  intro s.
  destruct (run_counters_ok es App.initial rng initial_counters_ok)
    as [_ [_ [_ [Ht Hg]]]].
  split; assumption.
Qed.

Lemma X2_witness :
  let es := [App.StartGame; App.BlockClick (-1); App.Tick] in
  let s := fst (App.run (es ++ repeat App.Tick 26) App.initial
                  (rng_const 0.5)) in
  App.status s = App.GAMEOVER /\ App.timeLeft s = 0%Z.
Proof.
  intros es s.
  assert (Hs : App.status s = App.GAMEOVER) by reflexivity.
  split; [exact Hs|].
  apply (X2_time_left_bounds (es ++ repeat App.Tick 26) (rng_const 0.5)).
  exact Hs.
Defined.

(** X3: in every reachable state with status PLAYING the grid has 25
    blocks, exactly one of them is the target, and a block is the target
    exactly when its position is the [targetIndex] that [handleBlockClick]
    compares the clicked position with. *)
Theorem X3_playing_grid_has_one_target
  (es : list App.Event) (rng : RandomSource) :
  unit_draws rng ->
  let s := fst (App.run es App.initial rng) in
  App.status s = App.PLAYING ->
  List.length (App.grid s) = 25%nat /\
  (0 <= App.targetIndex s < 25)%Z /\
  List.length (filter isTarget (App.grid s)) = 1%nat /\
  (forall (i : nat) (c : Cell),
     nth_error (App.grid s) i = Some c ->
     (isTarget c = true <-> Z.of_nat i = App.targetIndex s)).
Proof.
  intros Hrng s Hp.
  destruct (run_has_round es rng Hrng Hp)
    as [lvl [d [r [Hl [Hr [Hg [Hi Hd]]]]]]].
  fold s in Hg, Hi, Hd.
  unfold newGrid in Hg. unfold newTargetIndex in Hi.
  rewrite grid_round in Hg. rewrite targetIndex_round in Hi.
  pose proof (targetIndex_of_range r Hr) as Hidx.
  rewrite Hg, Hi.
  split; [rewrite Array_from_length; reflexivity|].
  split; [exact Hidx|].
  split; [apply count_targets; exact Hidx|].
  intros i c Hc. rewrite Array_from_nth_error in Hc.
  destruct (i <? Z.to_nat 25)%nat; [|discriminate].
  injection Hc as Hc. subst c. cbn [isTarget].
  apply Z.eqb_eq.
Qed.

Lemma X3_witness :
  unit_draws (rng_const 0.5) /\
  let s := fst (App.run [App.StartGame; App.BlockClick 12] App.initial
                  (rng_const 0.5)) in
  App.status s = App.PLAYING /\
  App.level s = 2%Z /\
  List.length (filter isTarget (App.grid s)) = 1%nat.
Proof.
  assert (Hu : unit_draws (rng_const 0.5))
    by (apply unit_draws_const; [discriminate | reflexivity]).
  split; [exact Hu|].
  split; [reflexivity|]. split; [reflexivity|].
  apply (X3_playing_grid_has_one_target
           [App.StartGame; App.BlockClick 12] (rng_const 0.5) Hu).
  reflexivity.
Defined.

(** X4: in every reachable state with status PLAYING all blocks other than
    the target have the same colour, and the colour of the target block
    differs from it. *)
Theorem X4_playing_target_is_distinct
  (es : list App.Event) (rng : RandomSource) :
  unit_draws rng ->
  let s := fst (App.run es App.initial rng) in
  App.status s = App.PLAYING ->
  exists base target : HSL,
    ~ HSL_eq base target /\
    (forall (i : nat) (c : Cell),
       nth_error (App.grid s) i = Some c ->
       color c = if Z.eqb (Z.of_nat i) (App.targetIndex s)
                 then target else base).
Proof.
  intros Hrng s Hp.
  destruct (run_has_round es rng Hrng Hp)
    as [lvl [d [r [Hl [Hr [Hg [Hi Hd]]]]]]].
  fold s in Hg, Hi, Hd.
  unfold newGrid in Hg. unfold newTargetIndex in Hi.
  rewrite grid_round in Hg. rewrite targetIndex_round in Hi.
  exists (baseColor_of r), (targetColor_of lvl (Difficulty_value d) r).
  split.
  - apply target_differs; [assumption|].
    apply currentDiff_le_25. assumption.
  - intros i c Hc. rewrite Hg, Array_from_nth_error in Hc.
    destruct (i <? Z.to_nat 25)%nat; [|discriminate].
    injection Hc as Hc. subst c. cbn [color]. rewrite Hi. reflexivity.
Qed.

Lemma X4_witness :
  unit_draws (rng_const 0.5) /\
  let s := fst (App.run [App.StartGame; App.BlockClick 12] App.initial
                  (rng_const 0.5)) in
  App.status s = App.PLAYING /\
  exists base target : HSL,
    ~ HSL_eq base target /\
    (forall (i : nat) (c : Cell),
       nth_error (App.grid s) i = Some c ->
       color c = if Z.eqb (Z.of_nat i) (App.targetIndex s)
                 then target else base).
Proof.
  assert (Hu : unit_draws (rng_const 0.5))
    by (apply unit_draws_const; [discriminate | reflexivity]).
  split; [exact Hu|].
  split; [reflexivity|].
  apply (X4_playing_target_is_distinct
           [App.StartGame; App.BlockClick 12] (rng_const 0.5) Hu).
  reflexivity.
Defined.

(** ** The timer *)

(** X5: only a firing of the timer ends a game: a step reaches GAMEOVER
    from another status only as a tick in PLAYING with at most one second
    left.  A wrong click that takes the last seconds leaves the game in
    PLAYING with no time left, and the next tick ends it. *)
Theorem X5_only_the_timer_ends_a_game :
  (forall (e : App.Event) (s : App.State) (rng : RandomSource),
     App.status (fst (App.step e s rng)) = App.GAMEOVER ->
     App.status s = App.GAMEOVER \/
     (e = App.Tick /\ App.status s = App.PLAYING /\
      (App.timeLeft s <= 1)%Z)) /\
  (forall (index : Z) (s : App.State) (rng : RandomSource),
     App.status s = App.PLAYING ->
     index <> App.targetIndex s ->
     (App.timeLeft s <= 3)%Z ->
     let s' := fst (App.handleBlockClick index s rng) in
     App.status s' = App.PLAYING /\
     App.timeLeft s' = 0%Z /\
     App.wrongClicks s' = (App.wrongClicks s + 1)%Z /\
     App.status (App.tick s') = App.GAMEOVER).
Proof.
  split.
  - intros e s rng H.
    destruct e; cbn [App.step ret fst] in H.
    + rewrite startGame_eq in H. discriminate H.
    + unfold App.handleBlockClick in H.
      destruct (App.status s) eqn:Est; cbn [ret fst] in H;
        try (left; congruence).
      destruct (Z.eqb index (App.targetIndex s)).
      * rewrite bind_eq, generateColors_eq in H. cbn in H. congruence.
      * cbn in H. congruence.
    + unfold App.tick in H.
      destruct (App.status s) eqn:Est; try (left; congruence).
      destruct (Z.leb_spec (App.timeLeft s) 1).
      * right. split; [reflexivity | split; [reflexivity | assumption]].
      * cbn in H. congruence.
    + discriminate H.
    + left. exact H.
    + left. exact H.
  - intros index s rng Hp Hne Ht s'. unfold s', App.handleBlockClick.
    rewrite Hp. apply Z.eqb_neq in Hne. rewrite Hne.
    cbn [ret fst]. unfold App.tick. cbn.
    replace (Z.max 0 (App.timeLeft s - 3)) with 0%Z by lia.
    repeat split.
Qed.

Lemma X5_witness :
  let s := fst (App.run (App.StartGame :: repeat (App.BlockClick (-1)) 9)
                  App.initial (rng_const 0.5)) in
  App.status s = App.PLAYING /\
  (-1)%Z <> App.targetIndex s /\
  (App.timeLeft s <= 3)%Z /\
  let s' := fst (App.handleBlockClick (-1) s (rng_const 0.5)) in
  App.status s' = App.PLAYING /\
  App.timeLeft s' = 0%Z /\
  App.wrongClicks s' = 10%Z /\
  App.status (App.tick s') = App.GAMEOVER.
Proof.
  intro s.
  assert (Hp : App.status s = App.PLAYING) by (vm_compute; reflexivity).
  assert (Hi : (-1)%Z <> App.targetIndex s) by (vm_compute; discriminate).
  assert (Ht : (App.timeLeft s <= 3)%Z) by (vm_compute; discriminate).
  split; [exact Hp|]. split; [exact Hi|]. split; [exact Ht|].
  exact (proj2 X5_only_the_timer_ends_a_game (-1)%Z s (rng_const 0.5)
           Hp Hi Ht).
Defined.

Lemma ticks_last (k : nat) (s : App.State) :
  App.ticks (S k) s = App.tick (App.ticks k s).
Proof.
  revert s. induction k as [|k IH]; intro s; [reflexivity|].
  change (App.ticks (S (S k)) s) with (App.ticks (S k) (App.tick s)).
  rewrite IH. reflexivity.
Qed.

(** While more than [k] seconds are left, [k] ticks only count down. *)
Lemma ticks_count_down (k : nat) (s : App.State) :
  App.status s = App.PLAYING ->
  (Z.of_nat k < App.timeLeft s)%Z ->
  App.status (App.ticks k s) = App.PLAYING /\
  App.timeLeft (App.ticks k s) = (App.timeLeft s - Z.of_nat k)%Z /\
  App.score (App.ticks k s) = App.score s /\
  App.level (App.ticks k s) = App.level s.
Proof.
  induction k as [|k IH]; intros Hp Ht.
  - cbn [App.ticks]. repeat split; [assumption | lia].
  - rewrite ticks_last.
    destruct IH as [Hp' [Ht' [Hs' Hl']]]; [assumption | lia |].
    unfold App.tick. rewrite Hp'.
    destruct (Z.leb_spec (App.timeLeft (App.ticks k s)) 1); [lia|].
    cbn. repeat split; try assumption. lia.
Qed.

(** X6: with nothing but ticks, a game in PLAYING with [n >= 1] seconds
    left stays in PLAYING for the first [n - 1] ticks, counting the time
    down by one each, and is over with 0 seconds left at the [n]-th tick;
    score and level are untouched. *)
Theorem X6_countdown_ends_after_time_left_ticks
  (s : App.State) (n : nat) :
  App.status s = App.PLAYING ->
  App.timeLeft s = Z.of_nat (S n) ->
  (forall k : nat, (k <= n)%nat ->
     App.status (App.ticks k s) = App.PLAYING /\
     App.timeLeft (App.ticks k s) = (App.timeLeft s - Z.of_nat k)%Z) /\
  App.status (App.ticks (S n) s) = App.GAMEOVER /\
  App.timeLeft (App.ticks (S n) s) = 0%Z /\
  App.score (App.ticks (S n) s) = App.score s /\
  App.level (App.ticks (S n) s) = App.level s.
Proof.
  intros Hp Ht. split.
  - intros k Hk.
    destruct (ticks_count_down k s Hp) as [H1 [H2 _]]; [lia|].
    split; assumption.
  - rewrite ticks_last.
    destruct (ticks_count_down n s Hp) as [H1 [H2 [H3 H4]]]; [lia|].
    unfold App.tick. rewrite H1.
    destruct (Z.leb_spec (App.timeLeft (App.ticks n s)) 1); [|lia].
    cbn. repeat split; assumption.
Qed.

Lemma X6_witness :
  let s := fst (App.startGame App.initial (rng_const 0.5)) in
  App.status s = App.PLAYING /\
  App.timeLeft s = Z.of_nat 30 /\
  App.status (App.ticks 29 s) = App.PLAYING /\
  App.timeLeft (App.ticks 29 s) = 1%Z /\
  App.status (App.ticks 30 s) = App.GAMEOVER.
Proof.
  intro s.
  assert (Hp : App.status s = App.PLAYING) by (vm_compute; reflexivity).
  assert (Ht : App.timeLeft s = Z.of_nat 30) by (vm_compute; reflexivity).
  destruct (X6_countdown_ends_after_time_left_ticks s 29 Hp Ht)
    as [Hk [Hend _]].
  destruct (Hk 29%nat (le_n 29)) as [H1 H2].
  split; [exact Hp|]. split; [exact Ht|]. split; [exact H1|].
  split; [rewrite H2, Ht; reflexivity | exact Hend].
Defined.

(** ** The level a round is generated for *)

Lemma play_correct_spec (k : nat) (s : App.State) (rng : RandomSource) :
  App.status s = App.PLAYING ->
  let s' := fst (App.play_correct (S k) s rng) in
  App.status s' = App.PLAYING /\
  App.level s' = (App.level s + Z.of_nat (S k))%Z /\
  App.score s' = (App.score s + Z.of_nat (S k))%Z /\
  App.difficulty s' = App.difficulty s /\
  exists rng' : RandomSource,
    App.shows_round s' (App.level s + Z.of_nat k) (App.difficulty s) rng'.
Proof.
  revert s rng. induction k as [|k IH]; intros s rng Hp.
  - cbn [App.play_correct]. rewrite bind_eq, (click_correct_eq s rng Hp).
    cbn [fst snd ret].
    split; [reflexivity|]. split; [reflexivity|]. split; [reflexivity|].
    split; [reflexivity|].
    exists rng. unfold App.shows_round. cbn.
    rewrite Z.add_0_r. repeat split.
  - change (App.play_correct (S (S k)) s rng)
      with (bind (App.handleBlockClick (App.targetIndex s) s)
              (App.play_correct (S k)) rng).
    rewrite bind_eq, (click_correct_eq s rng Hp). cbn [fst snd].
    match goal with
    | |- context [App.play_correct (S k) ?s1 ?r1] =>
        destruct (IH s1 r1 eq_refl) as [H1 [H2 [H3 [H4 [r' H5]]]]]
    end.
    cbn [App.level App.score App.difficulty] in H2, H3, H4, H5.
    split; [exact H1|].
    split; [rewrite H2; lia|].
    split; [rewrite H3; lia|].
    split; [exact H4|].
    exists r'.
    replace (App.level s + Z.of_nat (S k))%Z
      with (App.level s + 1 + Z.of_nat k)%Z by lia.
    exact H5.
Qed.

(** X7: after [startGame] and [k + 1] clicks on the target the level shown
    is [k + 2] and the score is [k + 1], but the round on the screen is the
    one [generateColors] builds for level [k + 1]: a correct click
    generates the next round with the level of before the click.  In
    particular the rounds shown at level 1 and 2 of a first game are both
    built for level 1. *)
Theorem X7_round_lags_one_level
  (s0 : App.State) (k : nat) (rng : RandomSource) :
  let s := fst (bind (App.startGame s0) (App.play_correct (S k)) rng) in
  App.status s = App.PLAYING /\
  App.level s = (Z.of_nat k + 2)%Z /\
  App.score s = (Z.of_nat k + 1)%Z /\
  exists rng' : RandomSource,
    App.shows_round s (App.level s - 1) (App.difficulty s0) rng' /\
    option_map diff (App.diffInfo s) =
      Some (Number_toFixed
              (currentDiff (App.level s - 1)
                 (Difficulty_value (App.difficulty s0))) 2).
Proof.
  intro s. unfold s. rewrite bind_eq, startGame_eq. cbn [fst snd].
  match goal with
  | |- context [App.play_correct (S k) ?s1 ?r1] =>
      destruct (play_correct_spec k s1 r1 eq_refl)
        as [H1 [H2 [H3 [H4 [r' H5]]]]]
  end.
  cbn [App.level App.score App.difficulty] in H2, H3, H4, H5.
  split; [exact H1|].
  split; [rewrite H2; lia|].
  split; [rewrite H3; lia|].
  exists r'. rewrite H2.
  replace (1 + Z.of_nat (S k) - 1)%Z with (1 + Z.of_nat k)%Z by lia.
  split; [exact H5|].
  destruct H5 as [_ [_ Hd]]. rewrite Hd. cbn [option_map].
  unfold newDiffInfo. rewrite diff_round. reflexivity.
Qed.

Lemma currentDiff_level_2 (tier : Difficulty) :
  currentDiff 2 (Difficulty_value tier) < currentDiff 1 (Difficulty_value tier).
Proof. destruct tier; reflexivity. Qed.

(** X8: [startGame] generates the first round with the level of the state
    it is called in: started again after a game that reached level 2 or
    more, the new game shows level 1, score 0 and 30 seconds, but its
    first round is the one built for the level the last game ended on,
    whose magnitude is smaller than that of level 1. *)
Theorem X8_restart_keeps_old_level_for_first_round
  (s : App.State) (rng : RandomSource) :
  (2 <= App.level s)%Z ->
  let s' := fst (App.run [App.Restart; App.StartGame] s rng) in
  App.status s' = App.PLAYING /\
  App.level s' = 1%Z /\ App.score s' = 0%Z /\ App.timeLeft s' = 30%Z /\
  App.shows_round s' (App.level s) (App.difficulty s) rng /\
  currentDiff (App.level s) (Difficulty_value (App.difficulty s)) <
    currentDiff (App.level s') (Difficulty_value (App.difficulty s')).
Proof.
  intros Hl s'. unfold s'.
  cbn [App.run App.step]. rewrite !bind_eq. cbn [ret fst snd].
  rewrite startGame_eq. cbn [fst].
  cbn [App.setStatus App.level App.difficulty App.status App.score
       App.timeLeft].
  split; [reflexivity|]. split; [reflexivity|]. split; [reflexivity|].
  split; [reflexivity|].
  split; [unfold App.shows_round; cbn; repeat split|].
  apply Qle_lt_trans
    with (currentDiff 2 (Difficulty_value (App.difficulty s))).
  - rewrite !currentDiff_tier. apply appliedDelta_antitone. assumption.
  - apply currentDiff_level_2.
Qed.

Lemma X8_witness :
  let s := fst (bind (App.startGame App.initial) (App.play_correct 2)
                  (rng_const 0.5)) in
  (2 <= App.level s)%Z /\
  let s' := fst (App.run [App.Restart; App.StartGame] s (rng_const 0.5)) in
  App.level s' = 1%Z /\
  currentDiff (App.level s) (Difficulty_value (App.difficulty s)) <
    currentDiff (App.level s') (Difficulty_value (App.difficulty s')).
Proof.
  intro s.
  assert (Hl : (2 <= App.level s)%Z) by (vm_compute; discriminate).
  split; [exact Hl|].
  destruct (X8_restart_keeps_old_level_for_first_round s (rng_const 0.5) Hl)
    as [_ [H1 [_ [_ [_ H2]]]]].
  split; assumption.
Defined.

(** ** More on the magnitude and the shift *)

Lemma appliedDelta_at_floor_level (tier : Difficulty) :
  appliedDelta_spec (floor_level tier) tier == 1 /\
  1 < appliedDelta_spec (floor_level tier - 1) tier.
Proof. destruct tier; split; vm_compute; reflexivity. Qed.

(** X9: the magnitude has decayed to its floor of exactly 1 from level 107
    on for EASY, 54 for NORMAL and 31 for HARD, and at every earlier level
    it is greater than 1. *)
Theorem X9_floor_is_reached_at_floor_level (level : Z) (tier : Difficulty) :
  (currentDiff level (Difficulty_value tier) == 1 <->
   (floor_level tier <= level)%Z) /\
  (1 < currentDiff level (Difficulty_value tier) <->
   (level < floor_level tier)%Z).
Proof.
  rewrite currentDiff_tier.
  destruct (appliedDelta_at_floor_level tier) as [Hat Hbelow].
  pose proof (currentDiff_floor level (Difficulty_value tier)) as Hge.
  rewrite currentDiff_tier in Hge.
  assert (Hhigh : (floor_level tier <= level)%Z ->
                  appliedDelta_spec level tier == 1).
  { intro H.
    pose proof (appliedDelta_antitone (floor_level tier) level tier H).
    apply Qle_antisym; lra. }
  assert (Hlow : (level < floor_level tier)%Z ->
                 1 < appliedDelta_spec level tier).
  { intro H.
    pose proof (appliedDelta_antitone level (floor_level tier - 1) tier
                  ltac:(lia)).
    lra. }
  split; split; intro H.
  - destruct (Z.le_gt_cases (floor_level tier) level) as [Hc | Hc];
      [exact Hc|].
    specialize (Hlow Hc). lra.
  - apply Hhigh. exact H.
  - destruct (Z.le_gt_cases (floor_level tier) level) as [Hc | Hc];
      [|exact Hc].
    specialize (Hhigh Hc). lra.
  - apply Hlow. exact H.
Qed.

Lemma X9_witness :
  currentDiff 31 (Difficulty_value HARD) == 1 /\
  1 < currentDiff 30 (Difficulty_value HARD).
Proof.
  split.
  - apply (proj1 (X9_floor_is_reached_at_floor_level 31 HARD)).
    vm_compute. discriminate.
  - apply (proj2 (X9_floor_is_reached_at_floor_level 30 HARD)).
    reflexivity.
Defined.

Lemma Qabs_of_nonneg (x y : Q) : 0 <= y -> x == y -> Qabs x == y.
Proof. intros Hy E. rewrite E. apply Qabs_pos. assumption. Qed.

Lemma Qabs_of_nonpos (x y : Q) : 0 <= y -> x == - y -> Qabs x == y.
Proof.
  intros Hy E. rewrite E, Qabs_opp. apply Qabs_pos. assumption.
Qed.

(** The effect of the clamp on a base value between 30 and 79 and a
    magnitude between 1 and 25. *)
Lemma shiftClamped_effect (v sign d : Q) :
  30 <= v -> v <= 79 -> 1 <= d -> d <= 25 ->
  Qmin d 21 <= Qabs (shiftClamped v sign d - v) /\
  Qabs (shiftClamped v sign d - v) <= d /\
  (v + d <= 100 -> Qabs (shiftClamped v sign d - v) == d).
Proof.
  intros Hv0 Hv1 Hd0 Hd1.
  assert (Hm : Qmin d 21 <= d /\ Qmin d 21 <= 21)
    by (split; [apply Q.le_min_l | apply Q.le_min_r]).
  destruct Hm as [Hm1 Hm2].
  assert (E : shiftClamped v sign d == v + d \/
              shiftClamped v sign d == v - d \/
              (shiftClamped v sign d == 100 /\ 100 <= v + d)).
  { rewrite shiftClamped_clamp. unfold clamp_spec.
    destruct (gt sign 0.5).
    - destruct (Qle_bool (v + d) 0) eqn:E0.
      + apply Qle_bool_iff in E0. lra.
      + destruct (Qle_bool 100 (v + d)) eqn:E1.
        * apply Qle_bool_iff in E1. right. right. split; [reflexivity | lra].
        * left. reflexivity.
    - destruct (Qle_bool (v + - d) 0) eqn:E0.
      + apply Qle_bool_iff in E0. lra.
      + destruct (Qle_bool 100 (v + - d)) eqn:E1.
        * apply Qle_bool_iff in E1. lra.
        * right. left. reflexivity. }
  destruct E as [E | [E | [E Hc]]].
  - assert (A : Qabs (shiftClamped v sign d - v) == d)
      by (apply Qabs_of_nonneg; lra).
    rewrite A. split; [lra | split; [lra | intros _; reflexivity]].
  - assert (A : Qabs (shiftClamped v sign d - v) == d)
      by (apply Qabs_of_nonpos; lra).
    rewrite A. split; [lra | split; [lra | intros _; reflexivity]].
  - assert (A : Qabs (shiftClamped v sign d - v) == 100 - v)
      by (apply Qabs_of_nonneg; lra).
    rewrite A. split; [lra | split; [lra | intro H; lra]].
Qed.

(** X10: for every level from 1 on the clamp to [0,100] hardly bites.  A
    lightness shift is never clamped: the target lightness is off by the
    full magnitude.  A saturation shift is off by at least
    [min(magnitude, 21)] and at most the magnitude, and by the full
    magnitude on NORMAL and HARD.  A hue shift gives [h + d] or, wrapped,
    [h + d - 360]. *)
Theorem X10_effective_shift
  (level : Z) (tier : Difficulty) (rng : RandomSource) :
  (1 <= level)%Z ->
  unit_draws rng ->
  let R := round_of level (Difficulty_value tier) rng in
  let b := base (diffInfo R) in
  let t := target (diffInfo R) in
  let d := currentDiff level (Difficulty_value tier) in
  (channel_of rng = Hue ->
   hue t == hue b + d \/ hue t == hue b + d - 360) /\
  (channel_of rng = Saturation ->
   Qmin d 21 <= Qabs (saturation t - saturation b) /\
   Qabs (saturation t - saturation b) <= d /\
   (tier <> EASY -> Qabs (saturation t - saturation b) == d)) /\
  (channel_of rng = Lightness ->
   Qabs (lightness t - lightness b) == d).
Proof.
  intros Hl Hrng R b t d.
  unfold b, t, R. rewrite base_round, target_round.
  unfold baseColor_of, targetColor_of. fold d.
  pose proof (currentDiff_floor level (Difficulty_value tier)) as Hd1.
  pose proof (currentDiff_le_25 level tier Hl) as Hd25.
  fold d in Hd1, Hd25.
  destruct (h_of_range rng Hrng) as [Hh0 Hh1].
  destruct (s_of_range rng Hrng) as [Hs0 Hs1].
  destruct (l_of_range rng Hrng) as [Hl0 Hl1].
  split; [|split].
  - intro E. rewrite E. cbn [hue].
    rewrite shiftHue_mod by lra.
    destruct (mod_spec_bounds (h_of rng + d) 360 eq_refl) as [Hm0 Hm1].
    unfold mod_spec in *.
    generalize dependent (Qfloor ((h_of rng + d) / 360)). intros F Hm0 Hm1.
    assert (HF0 : inject_Z (-1) < inject_Z F)
      by (change (inject_Z (-1)) with (-1); lra).
    assert (HF1 : inject_Z F < inject_Z 2)
      by (change (inject_Z 2) with 2; lra).
    rewrite <- Zlt_Qlt in HF0, HF1.
    assert (HF : F = 0%Z \/ F = 1%Z) by lia.
    destruct HF as [HF | HF]; subst F.
    + left. change (inject_Z 0) with 0. ring.
    + right. change (inject_Z 1) with 1. ring.
  - intro E. rewrite E. cbn [saturation].
    destruct (shiftClamped_effect (s_of rng) (sign_of rng) d
                ltac:(lra) ltac:(lra) ltac:(lra) ltac:(lra))
      as [H1 [H2 H3]].
    split; [exact H1|]. split; [exact H2|].
    intro Hne. apply H3.
    assert (Hd15 : d <= 15).
    { unfold d. rewrite currentDiff_tier.
      apply Qle_trans with (baseDelta tier).
      - apply appliedDelta_le_base. assumption.
      - destruct tier; [congruence | |]; simpl; lra. }
    lra.
  - intro E. rewrite E. cbn [lightness].
    destruct (shiftClamped_effect (l_of rng) (sign_of rng) d
                ltac:(lra) ltac:(lra) ltac:(lra) ltac:(lra))
      as [_ [_ H3]].
    apply H3. lra.
Qed.

Lemma X10_witness :
  (1 <= 1)%Z /\
  unit_draws (rng_list [0.5; 0.96; 0.3; 0.5; 0.7; 0.99]) /\
  channel_of (rng_list [0.5; 0.96; 0.3; 0.5; 0.7; 0.99]) = Saturation /\
  let R := round_of 1 (Difficulty_value EASY)
             (rng_list [0.5; 0.96; 0.3; 0.5; 0.7; 0.99]) in
  Qabs (saturation (target (diffInfo R)) - saturation (base (diffInfo R)))
    == 22 /\
  Qmin (currentDiff 1 (Difficulty_value EASY)) 21 <=
    Qabs (saturation (target (diffInfo R)) - saturation (base (diffInfo R))).
Proof.
  assert (Hu : unit_draws (rng_list [0.5; 0.96; 0.3; 0.5; 0.7; 0.99]))
    by (apply unit_draws_list; reflexivity).
  split; [lia|]. split; [exact Hu|]. split; [reflexivity|].
  split; [reflexivity|].
  apply (X10_effective_shift 1 EASY
           (rng_list [0.5; 0.96; 0.3; 0.5; 0.7; 0.99]) ltac:(lia) Hu).
  reflexivity.
Defined.

(** X11: one call of [generateColors] consumes exactly five draws when the
    hue is shifted and six otherwise, leaves the rest of the source to the
    next call, and its round depends on no draw beyond those. *)
Theorem X11_draws_consumed
  (level : Z) (difficulty : string) (rng rng' : RandomSource) :
  snd (generateColors level difficulty rng) = drop (draws_used rng) rng /\
  (draws_used rng = 5%nat <-> channel_of rng = Hue) /\
  (draws_used rng = 6%nat <-> channel_of rng <> Hue) /\
  (same_draws (draws_used rng) rng rng' ->
   generateColors level difficulty rng' =
   (round_of level difficulty rng, drop (draws_used rng) rng')).
Proof.
  split; [apply generateColors_rest|].
  split; [unfold draws_used; destruct (channel_of rng);
          split; intro; congruence|].
  split; [unfold draws_used; destruct (channel_of rng);
          split; intro; congruence|].
  intro H. rewrite generateColors_eq.
  assert (E0 : rng 0%nat = rng' 0%nat)
    by (apply H; unfold draws_used; destruct (channel_of rng); lia).
  assert (E1 : rng 1%nat = rng' 1%nat)
    by (apply H; unfold draws_used; destruct (channel_of rng); lia).
  assert (E2 : rng 2%nat = rng' 2%nat)
    by (apply H; unfold draws_used; destruct (channel_of rng); lia).
  assert (E3 : rng 3%nat = rng' 3%nat)
    by (apply H; unfold draws_used; destruct (channel_of rng); lia).
  assert (E4 : rng 4%nat = rng' 4%nat)
    by (apply H; unfold draws_used; destruct (channel_of rng); lia).
  assert (Ec : channel_of rng' = channel_of rng)
    by (unfold channel_of; rewrite E3; reflexivity).
  assert (Eu : draws_used rng' = draws_used rng)
    by (unfold draws_used; rewrite Ec; reflexivity).
  rewrite Eu. f_equal.
  rewrite !round_of_eq.
  unfold targetIndex_of, targetColor_of, index_draw. rewrite Ec.
  unfold baseColor_of, sign_of, h_of, s_of, l_of.
  rewrite <- E0, <- E1, <- E2, <- E4.
  unfold draws_used in H.
  destruct (channel_of rng); try reflexivity;
    (assert (E5 : rng 5%nat = rng' 5%nat) by (apply H; lia));
    rewrite <- E5; reflexivity.
Qed.

Lemma X11_witness :
  same_draws (draws_used (rng_list [0.5; 0.5; 0.5; 0.1; 0.2]))
    (rng_list [0.5; 0.5; 0.5; 0.1; 0.2])
    (rng_list [0.5; 0.5; 0.5; 0.1; 0.2; 0.9]) /\
  draws_used (rng_list [0.5; 0.5; 0.5; 0.1; 0.2]) = 5%nat /\
  generateColors 4 "HARD" (rng_list [0.5; 0.5; 0.5; 0.1; 0.2; 0.9]) =
  (round_of 4 "HARD" (rng_list [0.5; 0.5; 0.5; 0.1; 0.2]),
   drop 5 (rng_list [0.5; 0.5; 0.5; 0.1; 0.2; 0.9])).
Proof.
  assert (Hs : same_draws (draws_used (rng_list [0.5; 0.5; 0.5; 0.1; 0.2]))
                 (rng_list [0.5; 0.5; 0.5; 0.1; 0.2])
                 (rng_list [0.5; 0.5; 0.5; 0.1; 0.2; 0.9])).
  { intros n Hn. change (n < 5)%nat in Hn.
    do 5 (destruct n as [|n]; [reflexivity|]). lia. }
  split; [exact Hs|]. split; [reflexivity|].
  apply (X11_draws_consumed 4 "HARD"
           (rng_list [0.5; 0.5; 0.5; 0.1; 0.2])
           (rng_list [0.5; 0.5; 0.5; 0.1; 0.2; 0.9])).
  exact Hs.
Defined.

(** ** The figures shown to the player *)

Lemma Math_round_range (x : Q) :
  0 <= x -> x <= 100 ->
  0 <= App.Math_round x /\ App.Math_round x <= 100.
Proof.
  intros H0 H1. unfold App.Math_round.
  assert (Hlo : (Qfloor 0.5 <= Qfloor (x + 0.5))%Z)
    by (apply Qfloor_resp_le; lra).
  assert (Hhi : (Qfloor (x + 0.5) <= Qfloor 100.5)%Z)
    by (apply Qfloor_resp_le; lra).
  change (Qfloor 0.5) with 0%Z in Hlo.
  change (Qfloor 100.5) with 100%Z in Hhi.
  rewrite Zle_Qle in Hlo, Hhi. split; assumption.
Qed.

(** X12: in every reachable state the accuracy shown on the game-over
    screen is between 0 and 100; it is 0 when the score is 0 (also before
    any click, where the division is skipped) and 100 when there is a
    score and no wrong click. *)
Theorem X12_accuracy_range
  (es : list App.Event) (rng : RandomSource) :
  let s := fst (App.run es App.initial rng) in
  (0 <= App.accuracy s /\ App.accuracy s <= 100) /\
  (App.score s = 0%Z -> App.accuracy s == 0) /\
  (App.wrongClicks s = 0%Z -> (0 < App.score s)%Z ->
   App.accuracy s == 100).
Proof.
  intro s.
  destruct (run_counters_ok es App.initial rng initial_counters_ok)
    as [_ [Hs [Hw _]]].
  fold s in Hs, Hw. unfold App.accuracy.
  destruct (Z.ltb_spec 0 (App.score s + App.wrongClicks s)) as [Hpos | Hzero].
  - assert (Hq : 0 < inject_Z (App.score s + App.wrongClicks s))
      by (change 0 with (inject_Z 0); rewrite <- Zlt_Qlt; assumption).
    assert (Hn : 0 <= inject_Z (App.score s))
      by (change 0 with (inject_Z 0); rewrite <- Zle_Qle; assumption).
    assert (Hle : inject_Z (App.score s) <=
                  inject_Z (App.score s + App.wrongClicks s))
      by (rewrite <- Zle_Qle; lia).
    set (x := inject_Z (App.score s) /
              inject_Z (App.score s + App.wrongClicks s)).
    assert (Hx0 : 0 <= x)
      by (apply Qle_shift_div_l; [assumption | lra]).
    assert (Hx1 : x <= 1)
      by (apply Qle_shift_div_r; [assumption | lra]).
    split; [apply Math_round_range; lra|]. split.
    + intro Hz.
      assert (Ex : x == 0).
      { unfold x. rewrite Hz. change (inject_Z 0) with 0.
        unfold Qdiv. ring. }
      unfold App.Math_round.
      assert (Ef : Qfloor (x * 100 + 0.5) = 0%Z)
        by (rewrite (Qfloor_comp (x * 100 + 0.5) 0.5);
            [reflexivity | rewrite Ex; reflexivity]).
      rewrite Ef. reflexivity.
    + intros Hwz Hsp.
      assert (Ex : x == 1).
      { unfold x. rewrite Hwz, Z.add_0_r. field.
        intro Hc. rewrite Hwz, Z.add_0_r in Hq. lra. }
      unfold App.Math_round.
      assert (Ef : Qfloor (x * 100 + 0.5) = 100%Z)
        by (rewrite (Qfloor_comp (x * 100 + 0.5) 100.5);
            [reflexivity | rewrite Ex; reflexivity]).
      rewrite Ef. reflexivity.
  - split; [split; lra|]. split.
    + intros _. reflexivity.
    + intros Hwz Hsp. lia.
Qed.

Lemma X12_witness :
  let s := fst (App.run [App.StartGame; App.BlockClick 12]
                  App.initial (rng_const 0.5)) in
  App.wrongClicks s = 0%Z /\ (0 < App.score s)%Z /\
  App.accuracy s == 100.
Proof.
  intro s.
  assert (Hw : App.wrongClicks s = 0%Z) by (vm_compute; reflexivity).
  assert (Hp : (0 < App.score s)%Z) by (vm_compute; reflexivity).
  split; [exact Hw|]. split; [exact Hp|].
  apply (X12_accuracy_range [App.StartGame; App.BlockClick 12]
           (rng_const 0.5)); assumption.
Defined.

(** X13: for every level from 1 on the magnitude recorded for display,
    [diffInfo.diff], is between 1 and the tier's starting magnitude (25,
    15 or 12), and it is a whole number of hundredths. *)
Theorem X13_recorded_diff_range
  (level : Z) (tier : Difficulty) (rng : RandomSource) :
  (1 <= level)%Z ->
  let dd := diff (diffInfo (round_of level (Difficulty_value tier) rng)) in
  1 <= dd /\ dd <= baseDelta tier /\
  exists n : Z, dd == inject_Z n / 100.
Proof.
  intros Hl dd.
  assert (Hd : dd == round2_spec (currentDiff level (Difficulty_value tier))).
  { unfold dd. rewrite diff_round. apply Number_toFixed_2.
    - pose proof (currentDiff_floor level (Difficulty_value tier)). lra.
    - apply currentDiff_le_25. assumption. }
  pose proof (currentDiff_floor level (Difficulty_value tier)) as H1.
  assert (Hb : currentDiff level (Difficulty_value tier) <= baseDelta tier)
    by (rewrite currentDiff_tier; apply appliedDelta_le_base; assumption).
  unfold round2_spec in Hd.
  assert (Hlo : (Qfloor 100.5 <=
                 Qfloor (100 * currentDiff level (Difficulty_value tier)
                         + 0.5))%Z)
    by (apply Qfloor_resp_le; lra).
  assert (Hhi : (Qfloor (100 * currentDiff level (Difficulty_value tier)
                         + 0.5) <=
                 Qfloor (100 * baseDelta tier + 0.5))%Z)
    by (apply Qfloor_resp_le; lra).
  change (Qfloor 100.5) with 100%Z in Hlo.
  assert (Eb : inject_Z (Qfloor (100 * baseDelta tier + 0.5)) ==
               100 * baseDelta tier)
    by (destruct tier; reflexivity).
  rewrite Zle_Qle in Hlo, Hhi. rewrite Eb in Hhi.
  generalize dependent
    (Qfloor (100 * currentDiff level (Difficulty_value tier) + 0.5)).
  intros F Hd Hlo Hhi.
  assert (E : inject_Z F / 100 == inject_Z F * 0.01) by field.
  rewrite E in Hd. change (inject_Z 100) with 100 in Hlo.
  split; [lra|]. split; [lra|].
  exists F. rewrite Hd. symmetry. exact E.
Qed.

Lemma X13_witness :
  (1 <= 3)%Z /\
  let dd := diff (diffInfo (round_of 3 (Difficulty_value NORMAL)
                              (rng_const 0.5))) in
  dd == 13.54 /\ 1 <= dd /\ dd <= baseDelta NORMAL.
Proof.
  split; [lia|]. split; [reflexivity|].
  destruct (X13_recorded_diff_range 3 NORMAL (rng_const 0.5) ltac:(lia))
    as [H1 [H2 _]].
  split; assumption.
Defined.
